(** * free-tuber: audio-to-viseme pipeline and blink state machine

    A shallow embedding of the lip-sync resolver ([lipsync.js]), the capture
    buffer ([audio.js]), the sprite and blink logic ([animation.js]) and the
    render-tick driver ([main.js]), with the properties checked against it.

    Conventions of the embedding:
    - JavaScript numbers that carry time in seconds or random draws are exact
      rationals ([Q]); [Date.now()] readings are integers ([Z], milliseconds).
    - [Math.random()] is an oracle: every function that may call it takes the
      value [r] the call would return (a rational with [0 <= r < 1]).
    - Module-level [let] variables become fields of explicit state records
      that are threaded through the functions.
    - A JavaScript [Map] is an insertion-ordered association list.
    - An [async] function is split at its [await] into the part that runs
      at the call and the part that runs when the awaited value arrives. *)

From Stdlib Require Import QArith Qround Lqa Floats.
From Stdlib Require Uint63.
From stdpp Require Import base decidable option list strings gmap.
From Stdlib Require Import ZArith Lia.

Set Warnings "-inexact-float".

Local Open Scope string_scope.
Local Open Scope list_scope.

(** ** JavaScript values that reach the mouth category *)

(** The values the category variable can hold: [null]/[undefined], a string,
    or a member that [PHONEME_MAP] inherits from [Object.prototype] (a
    function object, or the prototype object itself for [__proto__]). *)
Inductive value : Type :=
| VNull
| VStr (s : string)
| VProto (k : string).

#[global] Instance value_eq_dec : EqDecision value.
Proof. solve_decision. Defined.

(** JavaScript truthiness: [null] and the empty string are falsy, every
    object is truthy. *)
Definition truthy (v : value) : bool :=
  match v with
  | VNull => false
  | VStr s => negb (String.eqb s "")
  | VProto _ => true
  end.

(** Strict equality [===] on these values. *)
Definition strict_eq (a b : value) : bool := bool_decide (a = b).

(** [a || b] *)
Definition js_or (a b : value) : value := if truthy a then a else b.

(** The fixed viseme set of the animation layer. *)
Definition mouthTypes : list string :=
  ["idle"; "a"; "e"; "o"; "u"; "closed"; "m"; "f"].

Definition is_viseme (v : value) : Prop :=
  exists s, v = VStr s /\ s ∈ mouthTypes.

Definition is_visemeb (v : value) : bool :=
  match v with
  | VStr s => bool_decide (s ∈ mouthTypes)
  | _ => false
  end.

(** ** lipsync.js *)

Module LipSync.

(** [const SMOOTHING_FACTOR = 0.7] *)
Definition SMOOTHING_FACTOR : Q := 0.7.

(** Own properties of the object literal [PHONEME_MAP]. *)
Definition PHONEME_MAP : gmap string string :=
  list_to_map
    [ ("A", "a"); ("E", "e"); ("I", "a"); ("O", "o"); ("U", "u");
      ("M", "m"); ("B", "m"); ("P", "m"); ("N", "m");
      ("F", "f"); ("V", "f"); ("T", "f"); ("D", "f");
      ("L", "a"); ("K", "closed"); ("G", "closed"); ("S", "f"); ("Z", "f") ].

(** Property names every object literal inherits from [Object.prototype]. *)
Definition Object_prototype_keys : list string :=
  [ "constructor"; "__defineGetter__"; "__defineSetter__"; "hasOwnProperty";
    "__lookupGetter__"; "__lookupSetter__"; "isPrototypeOf";
    "propertyIsEnumerable"; "toString"; "valueOf"; "__proto__";
    "toLocaleString" ].

(** [PHONEME_MAP[key]]: an own property if there is one, else the inherited
    member of that name, else [undefined]. *)
Definition PHONEME_MAP_get (key : string) : value :=
  match PHONEME_MAP !! key with
  | Some c => VStr c
  | None => if bool_decide (key ∈ Object_prototype_keys) then VProto key else VNull
  end.

(** A phoneme event [{ phoneme, start, duration }]; [phoneme] may be missing. *)
Record PhonemeEvent : Type := {
  phoneme : option string;
  start : Q;
  duration : Q
}.

Definition mkEvent (label : string) : PhonemeEvent :=
  {| phoneme := Some label; start := 0; duration := 0.1 |}.

(** [phoneme.phoneme || 'rest'] *)
Definition phonemeChar (e : PhonemeEvent) : string :=
  match phoneme e with
  | Some s => if String.eqb s "" then "rest" else s
  | None => "rest"
  end.

(** Lines 594-600 of [getPhonemeCategory]: the category before smoothing. *)
Definition candidate (e : PhonemeEvent) : value :=
  let c := phonemeChar e in
  let category := js_or (PHONEME_MAP_get c) (VStr "closed") in
  if String.eqb c "rest" || String.eqb c "silent" then VStr "idle" else category.

(** [Math.random() > (1 - factor)] *)
Definition shouldSwitch (factor r : Q) : bool :=
  negb (Qle_bool r (1 - factor)).

(** Lines 602-612: keep the previous category unless the draw allows the
    switch. [previous] is [phonemeHistory[phonemeHistory.length - 1]]. *)
Definition smooth (factor r : Q) (previous : option value) (category : value) : value :=
  match previous with
  | Some prev =>
      if truthy prev && negb (strict_eq prev category)
      then (if shouldSwitch factor r then category else prev)
      else category
  | None => category
  end.

(** Lines 615-618: [push], then one [shift] when longer than 10. *)
Definition remember (h : list value) (category : value) : list value :=
  let h' := h ++ [category] in
  if decide (10 < length h')%nat then drop 1 h' else h'.

(** [getPhonemeCategory(phoneme)] with the smoothing constant as a parameter;
    returns the emitted category and the new [phonemeHistory]. *)
Definition getPhonemeCategory_with (factor r : Q)
    (ev : option PhonemeEvent) (h : list value) : value * list value :=
  match ev with
  | None => (VStr "idle", h)
  | Some e =>
      let category := smooth factor r (last h) (candidate e) in
      (category, remember h category)
  end.

Definition getPhonemeCategory := getPhonemeCategory_with SMOOTHING_FACTOR.

(** [resetPhonemeHistory()] *)
Definition resetPhonemeHistory (h : list value) : list value := [].

(** A sequence of calls, each with its draw: the emitted categories and the
    final history. *)
Fixpoint resolve_all (calls : list (Q * option PhonemeEvent)) (h : list value)
  : list value * list value :=
  match calls with
  | [] => ([], h)
  | (r, ev) :: calls' =>
      let '(c, h1) := getPhonemeCategory r ev h in
      let '(cs, h2) := resolve_all calls' h1 in
      (c :: cs, h2)
  end.

(** A history that holds its 10 entries. *)
Definition full_history : list value :=
  [VStr "a"; VStr "a"; VStr "e"; VStr "e"; VStr "o";
   VStr "o"; VStr "u"; VStr "m"; VStr "f"; VStr "idle"].

End LipSync.

(** ** audio.js *)

Module Audio.

(** One captured frame: [{ data, timestamp, sampleRate }]. *)
Record AudioFrame : Type := {
  data : list Q;
  timestamp : Z;
  sampleRate : Z
}.

(** What [window.audioBufferQueue] refers to: nothing yet, the very array
    object [audioBuffers] (after [startMicrophone]), or an array of its own
    (the fresh [[]] that [stopMicrophone] assigns). *)
Inductive QueueRef : Type :=
| QUndefined
| QShared
| QOwn (l : list AudioFrame).

Record AudioState : Type := {
  audioContext : option Z;      (* its sampleRate, once initAudio succeeded *)
  mediaStream : bool;
  scriptProcessor : bool;       (* a connected ScriptProcessorNode exists *)
  analyser : bool;
  isAudioRunning : bool;
  audioBuffers : list AudioFrame;
  windowQueue : QueueRef
}.

Definition initial : AudioState :=
  {| audioContext := None; mediaStream := false; scriptProcessor := false;
     analyser := false; isAudioRunning := false; audioBuffers := [];
     windowQueue := QUndefined |}.

Definition set_audioBuffers (l : list AudioFrame) (a : AudioState) : AudioState :=
  {| audioContext := audioContext a; mediaStream := mediaStream a;
     scriptProcessor := scriptProcessor a; analyser := analyser a;
     isAudioRunning := isAudioRunning a; audioBuffers := l;
     windowQueue := windowQueue a |}.

Definition set_windowQueue (q : QueueRef) (a : AudioState) : AudioState :=
  {| audioContext := audioContext a; mediaStream := mediaStream a;
     scriptProcessor := scriptProcessor a; analyser := analyser a;
     isAudioRunning := isAudioRunning a; audioBuffers := audioBuffers a;
     windowQueue := q |}.

(** [initAudio()], given whether the browser offers an AudioContext. *)
Definition initAudio (supported : bool) (a : AudioState) : AudioState * bool :=
  if supported
  then ({| audioContext := Some 16000%Z; mediaStream := mediaStream a;
           scriptProcessor := scriptProcessor a; analyser := analyser a;
           isAudioRunning := isAudioRunning a; audioBuffers := audioBuffers a;
           windowQueue := windowQueue a |}, true)
  else (a, false).

(** The body of [scriptProcessor.onaudioprocess] on the array [audioBuffers]:
    push the new frame, then drop the oldest one when more than 15 are held. *)
Definition pushFrame (f : AudioFrame) (buf : list AudioFrame) : list AudioFrame :=
  let buf' := buf ++ [f] in
  if decide (15 < length buf')%nat then drop 1 buf' else buf'.

(** [onaudioprocess(event)] at clock reading [now]. The browser delivers the
    event to a connected node only. *)
Definition onaudioprocess (input : list Q) (now : Z) (a : AudioState) : AudioState :=
  if scriptProcessor a then
    match audioContext a with
    | Some rate =>
        set_audioBuffers
          (pushFrame {| data := input; timestamp := now; sampleRate := rate |}
                     (audioBuffers a)) a
    | None => a
    end
  else a.

(** [startMicrophone()]; [granted] tells whether [getUserMedia] resolves. *)
Definition startMicrophone (granted : bool) (a : AudioState) : AudioState * bool :=
  if mediaStream a then (a, true)
  else if negb granted then (a, false)
  else match audioContext a with
       | None =>
           (* createMediaStreamSource throws on the null context, after
              mediaStream was assigned *)
           ({| audioContext := None; mediaStream := true;
               scriptProcessor := scriptProcessor a; analyser := analyser a;
               isAudioRunning := isAudioRunning a; audioBuffers := audioBuffers a;
               windowQueue := windowQueue a |}, false)
       | Some rate =>
           ({| audioContext := Some rate; mediaStream := true;
               scriptProcessor := true; analyser := true;
               isAudioRunning := true; audioBuffers := audioBuffers a;
               windowQueue := QShared |}, true)
       end.

(** [stopMicrophone()] *)
Definition stopMicrophone (a : AudioState) : AudioState :=
  {| audioContext := audioContext a; mediaStream := false;
     scriptProcessor := false; analyser := false; isAudioRunning := false;
     audioBuffers := audioBuffers a; windowQueue := QOwn [] |}.

(** Reading [window.audioBufferQueue]. *)
Definition queue (a : AudioState) : option (list AudioFrame) :=
  match windowQueue a with
  | QUndefined => None
  | QShared => Some (audioBuffers a)
  | QOwn l => Some l
  end.

(** [window.audioBufferQueue.shift()] on an existing queue: the removed
    frame (if any) and the state with the array shortened in place. *)
Definition shiftQueue (a : AudioState) : option AudioFrame * AudioState :=
  match windowQueue a with
  | QUndefined => (None, a)
  | QShared => (head (audioBuffers a), set_audioBuffers (drop 1 (audioBuffers a)) a)
  | QOwn l => (head l, set_windowQueue (QOwn (drop 1 l)) a)
  end.

(** The frame [onaudioprocess] builds from an input block and a clock
    reading. *)
Definition frameOf (rate : Z) (c : list Q * Z) : AudioFrame :=
  {| data := c.1; timestamp := c.2; sampleRate := rate |}.

(** The capture callback firing once per element of [cs], in order. *)
Definition captureAll (cs : list (list Q * Z)) (a : AudioState) : AudioState :=
  fold_left (fun a' c => onaudioprocess c.1 c.2 a') cs a.

(** A running capture: context created, microphone started. *)
Definition running : AudioState :=
  fst (startMicrophone true (fst (initAudio true initial))).

(** Seventeen empty input blocks at clock readings 0 to 16. *)
Definition seventeen : list (list Q * Z) :=
  map (fun i => ([], Z.of_nat i)) (seq 0 17).

End Audio.

(** ** animation.js *)

Module Animation.

Local Open Scope Q_scope.

(** What the logic reads and writes of a sprite entry
    [{ sprite, loaded, assetUrl }]: [sprite.visible] and [loaded]. *)
Record SpriteData : Type := {
  visible : bool;
  loaded : bool
}.

Definition set_visible (b : bool) (d : SpriteData) : SpriteData :=
  {| visible := b; loaded := loaded d |}.

(** A [Map] from sprite key to sprite entry, in insertion order. *)
Definition SpriteMap : Type := list (string * SpriteData).

(** [map.get(key)] for a string key. *)
Fixpoint Map_get (key : string) (m : SpriteMap) : option SpriteData :=
  match m with
  | [] => None
  | (k, d) :: m' => if String.eqb k key then Some d else Map_get key m'
  end.

(** [map.set(key, d)] *)
Fixpoint Map_set (key : string) (d : SpriteData) (m : SpriteMap) : SpriteMap :=
  match m with
  | [] => [(key, d)]
  | (k, d') :: m' =>
      if String.eqb k key then (k, d) :: m' else (k, d') :: Map_set key d m'
  end.

(** [map.get(v)] for an arbitrary value: only strings are keys. *)
Definition Map_get_value (v : value) (m : SpriteMap) : option SpriteData :=
  match v with
  | VStr s => Map_get s m
  | _ => None
  end.

(** Writing [sprite.visible] of the entry under [key]. *)
Definition show (key : string) (b : bool) (m : SpriteMap) : SpriteMap :=
  map (fun kd => if String.eqb (fst kd) key
                 then (fst kd, set_visible b (snd kd)) else kd) m.

Record AnimationState : Type := {
  mouthSprites : SpriteMap;
  eyeSprites : SpriteMap;
  currentMouthType : string;
  currentEyeState : string;
  blinkTimer : Q;
  blinkDuration : Q;
  isBlinking : bool;
  nextBlinkTime : Q;
  timeSinceLastBlink : Q
}.

(** The module-level initial value; [r] is the draw of [Math.random()]. *)
Definition animationState0 (r : Q) : AnimationState :=
  {| mouthSprites := []; eyeSprites := [];
     currentMouthType := "idle"; currentEyeState := "open";
     blinkTimer := 0; blinkDuration := 0.15; isBlinking := false;
     nextBlinkTime := r * 3 + 2; timeSinceLastBlink := 0 |}.

Definition eyeStates : list string := ["open"; "closed"].

(** [initAnimation(layers)]: one placeholder per mouth type (a fresh Pixi
    container is visible), one per eye state, the closed eye hidden. *)
Definition initAnimation (st : AnimationState) : AnimationState :=
  {| mouthSprites :=
       fold_left (fun m type => Map_set type {| visible := true; loaded := false |} m)
                 mouthTypes (mouthSprites st);
     eyeSprites :=
       fold_left (fun m state =>
                    Map_set state {| visible := String.eqb state "open";
                                     loaded := false |} m)
                 eyeStates (eyeSprites st);
     currentMouthType := currentMouthType st;
     currentEyeState := currentEyeState st;
     blinkTimer := blinkTimer st; blinkDuration := blinkDuration st;
     isBlinking := isBlinking st; nextBlinkTime := nextBlinkTime st;
     timeSinceLastBlink := timeSinceLastBlink st |}.

(** What a call does besides changing the state: writes of [sprite.visible]
    on mouth sprites (renderer work) and console warnings. *)
Inductive effect : Type :=
| SetVisible (type : string) (b : bool)
| WarnUnknownMouth (v : value)
| WarnUnknownEye (s : string).

Definition is_render (e : effect) : bool :=
  match e with SetVisible _ _ => true | _ => false end.

(** [updateMouthSprite(mouthLayer, phonemeCategory)] *)
Definition updateMouthSprite (phonemeCategory : value) (st : AnimationState)
  : AnimationState * list effect :=
  if negb (truthy phonemeCategory)
     || strict_eq (VStr (currentMouthType st)) phonemeCategory
  then (st, [])
  else
    match phonemeCategory, Map_get_value phonemeCategory (mouthSprites st) with
    | VStr cat, Some _ =>
        ({| mouthSprites :=
              map (fun kd => (fst kd, set_visible (String.eqb (fst kd) cat) (snd kd)))
                  (mouthSprites st);
            eyeSprites := eyeSprites st;
            currentMouthType := cat;
            currentEyeState := currentEyeState st;
            blinkTimer := blinkTimer st; blinkDuration := blinkDuration st;
            isBlinking := isBlinking st; nextBlinkTime := nextBlinkTime st;
            timeSinceLastBlink := timeSinceLastBlink st |},
         map (fun kd => SetVisible (fst kd) (String.eqb (fst kd) cat))
             (mouthSprites st))
    | _, _ => (st, [WarnUnknownMouth phonemeCategory])
    end.

(** The shared tail of the eye functions: when both eye entries exist, set
    the visibility of the open and of the closed sprite. *)
Definition showEyes (openVisible closedVisible : bool) (m : SpriteMap) : SpriteMap :=
  match Map_get "open" m, Map_get "closed" m with
  | Some _, Some _ => show "closed" closedVisible (show "open" openVisible m)
  | _, _ => m
  end.

(** [a > b] and [a >= b] on numbers. *)
Definition Qgtb (a b : Q) : bool := negb (Qle_bool a b).
Definition Qgeb (a b : Q) : bool := Qle_bool b a.

(** One frame lasts [1 / 60] seconds. *)
Definition dt : Q := 1 # 60.

(** [updateEyeSprite(eyeLayer)]; [r] is the draw of [Math.random()] made when
    a blink finishes. *)
Definition updateEyeSprite (r : Q) (st : AnimationState) : AnimationState :=
  let t := timeSinceLastBlink st + dt in
  if isBlinking st then
    let bt := blinkTimer st + dt in
    if Qgtb bt (blinkDuration st) then
      {| mouthSprites := mouthSprites st;
         eyeSprites := showEyes true false (eyeSprites st);
         currentMouthType := currentMouthType st;
         currentEyeState := currentEyeState st;
         blinkTimer := 0; blinkDuration := blinkDuration st;
         isBlinking := false; nextBlinkTime := r * 3 + 2;
         timeSinceLastBlink := 0 |}
    else
      {| mouthSprites := mouthSprites st;
         eyeSprites := showEyes false true (eyeSprites st);
         currentMouthType := currentMouthType st;
         currentEyeState := currentEyeState st;
         blinkTimer := bt; blinkDuration := blinkDuration st;
         isBlinking := true; nextBlinkTime := nextBlinkTime st;
         timeSinceLastBlink := t |}
  else if Qgeb t (nextBlinkTime st) then
    {| mouthSprites := mouthSprites st; eyeSprites := eyeSprites st;
       currentMouthType := currentMouthType st;
       currentEyeState := currentEyeState st;
       blinkTimer := 0; blinkDuration := blinkDuration st;
       isBlinking := true; nextBlinkTime := nextBlinkTime st;
       timeSinceLastBlink := t |}
  else
    {| mouthSprites := mouthSprites st; eyeSprites := eyeSprites st;
       currentMouthType := currentMouthType st;
       currentEyeState := currentEyeState st;
       blinkTimer := blinkTimer st; blinkDuration := blinkDuration st;
       isBlinking := false; nextBlinkTime := nextBlinkTime st;
       timeSinceLastBlink := t |}.

(** [setEyeState(eyeLayer, state)] *)
Definition setEyeState (state : string) (st : AnimationState) : AnimationState :=
  if negb (String.eqb state "open") && negb (String.eqb state "closed")
  then st
  else
    {| mouthSprites := mouthSprites st;
       eyeSprites := showEyes (String.eqb state "open") (String.eqb state "closed")
                              (eyeSprites st);
       currentMouthType := currentMouthType st;
       currentEyeState := state;
       blinkTimer := 0; blinkDuration := blinkDuration st;
       isBlinking := false; nextBlinkTime := nextBlinkTime st;
       timeSinceLastBlink := timeSinceLastBlink st |}.

(** [triggerBlink(eyeLayer)] *)
Definition triggerBlink (st : AnimationState) : AnimationState :=
  {| mouthSprites := mouthSprites st; eyeSprites := eyeSprites st;
     currentMouthType := currentMouthType st;
     currentEyeState := currentEyeState st;
     blinkTimer := 0; blinkDuration := blinkDuration st;
     isBlinking := true; nextBlinkTime := nextBlinkTime st;
     timeSinceLastBlink := 0 |}.

(** [k] consecutive frames of [updateEyeSprite]; frame [i] (from 0) is
    offered the draw [rand i]. *)
Fixpoint ticks (rand : nat -> Q) (k : nat) (st : AnimationState) : AnimationState :=
  match k with
  | O => st
  | S k' => updateEyeSprite (rand k') (ticks rand k' st)
  end.

(** Which eye sprite the stage shows. *)
Definition eyeVisible (key : string) (st : AnimationState) : option bool :=
  visible <$> Map_get key (eyeSprites st).

Definition showsClosedEye (st : AnimationState) : Prop :=
  eyeVisible "open" st = Some false /\ eyeVisible "closed" st = Some true.

Definition showsOpenEye (st : AnimationState) : Prop :=
  eyeVisible "open" st = Some true /\ eyeVisible "closed" st = Some false.

(** The stage after start-up: module initialisation, then [initAnimation]. *)
Definition stage (r : Q) : AnimationState := initAnimation (animationState0 r).

(** Both eye entries exist. *)
Definition eyes_present (st : AnimationState) : Prop :=
  is_Some (Map_get "open" (eyeSprites st)) /\
  is_Some (Map_get "closed" (eyeSprites st)).

(** The number [k] as a JavaScript number. *)
Definition qn (k : nat) : Q := inject_Z (Z.of_nat k).

(** The stage whose first deadline is 2 seconds, with the eye closed by hand. *)
Definition closed_by_hand : AnimationState := setEyeState "closed" (stage 0).

(** The blink hold timer in IEEE double arithmetic, as the browser computes
    it: [k] additions of [1 / 60] to [t]. *)
Fixpoint hold_double (k : nat) (t : float) : float :=
  match k with
  | O => t
  | S k' => (hold_double k' t + 1 / 60)%float
  end.

End Animation.

(** ** main.js *)

Module Main.

Import LipSync.

Record AppState : Type := {
  testMode : string;
  isMicEnabled : bool;
  isAudioTestMode : bool;
  phonemeCategory : value;
  currentMouthState : value;
  currentEyeState : string
}.

Definition appState0 : AppState :=
  {| testMode := "live"; isMicEnabled := false; isAudioTestMode := false;
     phonemeCategory := VStr "idle"; currentMouthState := VStr "idle";
     currentEyeState := "open" |}.

(** The variables closed over by [createAudioProcessor]. *)
Record Processor : Type := {
  lastProcessTime : Z;
  isProcessing : bool
}.

Definition PROCESS_INTERVAL : Z := 50.

(** Everything the render loop and the UI callbacks can reach. *)
Record World : Type := {
  audio : Audio.AudioState;
  phonemeHistory : list value;
  animation : Animation.AnimationState;
  appState : AppState;
  processor : Processor
}.

Definition world0 (r : Q) : World :=
  {| audio := fst (Audio.initAudio true Audio.initial);
     phonemeHistory := [];
     animation := Animation.stage r;
     appState := appState0;
     processor := {| lastProcessTime := 0; isProcessing := false |} |}.

(** What a step of the driver lets an observer see of the classification
    cycles: a cycle starting at a clock reading with the frame it dequeued,
    and the end of the cycle in flight. *)
Inductive obs : Type :=
| CycleStart (now : Z) (f : option Audio.AudioFrame)
| CycleEnd.

(** [processAudio()] up to its [await]: the throttle, the re-entrancy
    guard, the emptiness check, then the dequeue. [now] is [Date.now()].
    Frames come from [onaudioprocess] and always carry [data], so the two
    early returns inside [try] are not reached. *)
Definition processAudio_begin (now : Z) (w : World) : World * list obs :=
  let p := processor w in
  if (now - lastProcessTime p <? PROCESS_INTERVAL)%Z then (w, [])
  else if isProcessing p then (w, [])
  else
    match Audio.queue (audio w) with
    | None | Some [] => (w, [])
    | Some (_ :: _) =>
        let '(f, a') := Audio.shiftQueue (audio w) in
        ({| audio := a'; phonemeHistory := phonemeHistory w;
            animation := animation w; appState := appState w;
            processor := {| lastProcessTime := now; isProcessing := true |} |},
         [CycleStart now f])
    end.

(** [processAudio()] after its [await]: [phonemes] is what
    [processAudioBuffer] resolved to, [r] the draw for the smoother. The
    [finally] block clears [isProcessing]. Without a suspended call there is
    nothing to resume. *)
Definition processAudio_resume (phonemes : list PhonemeEvent) (r : Q) (w : World)
  : World * list obs :=
  if isProcessing (processor w) then
    let p' := {| lastProcessTime := lastProcessTime (processor w);
                 isProcessing := false |} in
    match phonemes with
    | [] =>
        ({| audio := audio w; phonemeHistory := phonemeHistory w;
            animation := animation w; appState := appState w;
            processor := p' |}, [CycleEnd])
    | currentPhoneme :: _ =>
        let '(mouthCategory, h') :=
          getPhonemeCategory r (Some currentPhoneme) (phonemeHistory w) in
        ({| audio := audio w; phonemeHistory := h';
            animation := animation w;
            appState :=
              {| testMode := testMode (appState w);
                 isMicEnabled := isMicEnabled (appState w);
                 isAudioTestMode := isAudioTestMode (appState w);
                 phonemeCategory := mouthCategory;
                 currentMouthState := mouthCategory;
                 currentEyeState := currentEyeState (appState w) |};
            processor := p' |}, [CycleEnd])
    end
  else (w, []).

Definition set_animation (an : Animation.AnimationState) (w : World) : World :=
  {| audio := audio w; phonemeHistory := phonemeHistory w; animation := an;
     appState := appState w; processor := processor w |}.

Definition set_appState (s : AppState) (w : World) : World :=
  {| audio := audio w; phonemeHistory := phonemeHistory w;
     animation := animation w; appState := s; processor := processor w |}.

Definition set_audio (a : Audio.AudioState) (w : World) : World :=
  {| audio := a; phonemeHistory := phonemeHistory w;
     animation := animation w; appState := appState w;
     processor := processor w |}.

(** One run of [animate()]: the audio processor if the microphone is on and
    the audio test mode is off, then the mouth, then the eyes. *)
Definition animate (now : Z) (r : Q) (w : World) : World * list obs :=
  let '(w1, o) :=
    if isMicEnabled (appState w) && negb (isAudioTestMode (appState w))
    then processAudio_begin now w else (w, []) in
  let an1 := fst (Animation.updateMouthSprite (phonemeCategory (appState w1))
                                              (animation w1)) in
  (set_animation (Animation.updateEyeSprite r an1) w1, o).

(** [onMicToggle(enabled)] *)
Definition onMicToggle (enabled granted : bool) (w : World) : World :=
  let s := appState w in
  let mic (b : bool) :=
    {| testMode := testMode s; isMicEnabled := b;
       isAudioTestMode := isAudioTestMode s;
       phonemeCategory := phonemeCategory s;
       currentMouthState := currentMouthState s;
       currentEyeState := currentEyeState s |} in
  if enabled then
    let '(a', success) := Audio.startMicrophone granted (audio w) in
    set_appState (mic success) (set_audio a' w)
  else
    set_appState (mic false) (set_audio (Audio.stopMicrophone (audio w)) w).

(** [onTestModeChange(newMode)] *)
Definition onTestModeChange (newMode : string) (w : World) : World :=
  let s := appState w in
  set_appState
    {| testMode := newMode; isMicEnabled := isMicEnabled s;
       isAudioTestMode := String.eqb newMode "audio";
       phonemeCategory := phonemeCategory s;
       currentMouthState := currentMouthState s;
       currentEyeState := currentEyeState s |} w.

(** [onMouthChange(mouthType)] *)
Definition onMouthChange (mouthType : value) (w : World) : World :=
  let s := appState w in
  set_appState
    {| testMode := testMode s; isMicEnabled := isMicEnabled s;
       isAudioTestMode := isAudioTestMode s;
       phonemeCategory := phonemeCategory s;
       currentMouthState := mouthType;
       currentEyeState := currentEyeState s |}
    (set_animation (fst (Animation.updateMouthSprite mouthType (animation w))) w).

(** [onEyeOpen()] and [onEyeClosed()] *)
Definition onEye (state : string) (w : World) : World :=
  let s := appState w in
  set_appState
    {| testMode := testMode s; isMicEnabled := isMicEnabled s;
       isAudioTestMode := isAudioTestMode s;
       phonemeCategory := phonemeCategory s;
       currentMouthState := currentMouthState s;
       currentEyeState := state |}
    (set_animation (Animation.setEyeState state (animation w)) w).

(** [onEyeBlink()] *)
Definition onEyeBlink (w : World) : World :=
  set_animation (Animation.triggerBlink (animation w)) w.

(** What can happen to the page, one event at a time. *)
Inductive event : Type :=
| Frame (now : Z) (r : Q)                      (* requestAnimationFrame fires *)
| AudioProcess (input : list Q) (now : Z)      (* the capture callback fires *)
| Classified (phonemes : list PhonemeEvent) (r : Q) (* the awaited result arrives *)
| MicToggle (enabled granted : bool)
| TestModeChange (newMode : string)
| MouthChange (mouthType : value)
| EyeOpen
| EyeClosed
| EyeBlink.

Definition step (e : event) (w : World) : World * list obs :=
  match e with
  | Frame now r => animate now r w
  | AudioProcess input now => (set_audio (Audio.onaudioprocess input now (audio w)) w, [])
  | Classified phonemes r => processAudio_resume phonemes r w
  | MicToggle enabled granted => (onMicToggle enabled granted w, [])
  | TestModeChange m => (onTestModeChange m w, [])
  | MouthChange v => (onMouthChange v w, [])
  | EyeOpen => (onEye "open" w, [])
  | EyeClosed => (onEye "closed" w, [])
  | EyeBlink => (onEyeBlink w, [])
  end.

(** A whole session: the final world and everything observed, in order. *)
Fixpoint run (es : list event) (w : World) : World * list obs :=
  match es with
  | [] => (w, [])
  | e :: es' =>
      let '(w1, o1) := step e w in
      let '(w2, o2) := run es' w1 in
      (w2, o1 ++ o2)
  end.

(** Clock readings of consecutive cycle starts are at least
    [PROCESS_INTERVAL] apart, the first one from [last]. *)
Fixpoint spaced (last : Z) (o : list obs) : Prop :=
  match o with
  | [] => True
  | CycleStart now _ :: o' => (PROCESS_INTERVAL <= now - last)%Z /\ spaced now o'
  | CycleEnd :: o' => spaced last o'
  end.

(** Starts and ends alternate: no start while a cycle is in flight. *)
Fixpoint alternating (inflight : bool) (o : list obs) : Prop :=
  match o with
  | [] => True
  | CycleStart _ _ :: o' => inflight = false /\ alternating true o'
  | CycleEnd :: o' => inflight = true /\ alternating false o'
  end.

Definition is_start (x : obs) : bool :=
  match x with CycleStart _ _ => true | CycleEnd => false end.

(** How many cycles an observation log starts. *)
Definition starts (o : list obs) : nat := length (List.filter is_start o).

(** How many frames the driver can still dequeue. *)
Definition queueLength (w : World) : nat :=
  match Audio.queue (audio w) with
  | Some q => length q
  | None => 0
  end.

(** A session in which the microphone is switched on, two frames are
    captured, and one of them is classified as the phoneme A. *)
Definition talking : World :=
  (run [MicToggle true true; AudioProcess [] 990; AudioProcess [] 995;
        Frame 1000 (1 # 2); Classified [mkEvent "A"] (1 # 2)] (world0 0)).1.

(** Three captured frames; render frames at 1000, 1016 and 1050 ms, the
    first classification arriving after the first of them. *)
Definition three_frames : list event :=
  [MicToggle true true; AudioProcess [] 990; AudioProcess [] 995;
   AudioProcess [] 999; Frame 1000 (1 # 2); Classified [mkEvent "A"] (1 # 2);
   Frame 1016 (1 # 2); Frame 1050 (1 # 2)].

(** The same captures with a classification that never arrives. *)
Definition stuck_classifier : list event :=
  [MicToggle true true; AudioProcess [] 990; AudioProcess [] 995;
   Frame 1000 (1 # 2); Frame 1100 (1 # 2); Frame 1200 (1 # 2)].

End Main.

(** The revision of [createAudioProcessor] kept in [src/main.js]: no
    throttle and no guard, one dequeue per call. *)
Module MainEarlier.

Definition processAudio_begin (a : Audio.AudioState)
  : Audio.AudioState * option Audio.AudioFrame :=
  match Audio.queue a with
  | None => (a, None)
  | Some _ => let '(f, a') := Audio.shiftQueue a in (a', f)
  end.

End MainEarlier.

(** ** lipsync.js: engine selection, mock classifier, diagnostics *)

Module Engine.

Import LipSync.

(** What the module variable [rhubarb] can hold once set. *)
Inductive engine : Type :=
| MockRhubarb
| RhubarbWasm.

(** How [fetch('/wasm/rhubarb.wasm')] ends. *)
Inductive FetchOutcome : Type :=
| FetchOk
| FetchNotOk
| FetchFails.

(** [loadRhubarbWasm()]: [null] when the response is not ok, [null] after a
    good response (the instantiation is commented out), [null] from the
    [catch]. *)
Definition loadRhubarbWasm (f : FetchOutcome) : option engine :=
  match f with
  | FetchNotOk => None
  | FetchOk => None
  | FetchFails => None
  end.

(** The object [initLipSync] resolves to. *)
Record InitResult : Type := {
  success : bool;
  usingMock : option bool
}.

(** [initLipSync()]: the new value of [rhubarb] and the result. *)
Definition initLipSync (f : FetchOutcome) : option engine * InitResult :=
  match loadRhubarbWasm f with
  | None => (Some MockRhubarb, {| success := true; usingMock := None |})
  | Some e => (Some e, {| success := true; usingMock := None |})
  end.

Record DiagnosticInfo : Type := {
  diag_phoneme : value;
  diag_history : list value;
  isUsingMock : bool
}.

(** [getDiagnosticInfo()] *)
Definition getDiagnosticInfo (rhubarb : option engine) (phonemeHistory : list value)
  : DiagnosticInfo :=
  {| diag_phoneme := js_or (default VNull (last phonemeHistory)) (VStr "idle");
     diag_history := drop (length phonemeHistory - 5) phonemeHistory;
     isUsingMock := match rhubarb with Some MockRhubarb => true | _ => false end |}.

(** [simulatePhonemeSequence(phonemes)]: one event per label, pushed onto
    [result]; the start is [result.length * 0.1] at the time of the push. *)
Definition simulatePhonemeSequence (phonemes : list string) : list PhonemeEvent :=
  fold_left
    (fun result p =>
       result ++ [{| phoneme := Some p;
                     start := inject_Z (Z.of_nat (length result)) * 0.1;
                     duration := 0.1 |}])
    phonemes [].

(** *** class MockRhubarb, in IEEE double arithmetic *)

Record Spectrum : Type := {
  energy : float;
  lowFreqRatio : float;
  highFreqRatio : float
}.

(** The loop of [analyzeFrequency] from index [i] on: the running sums
    [(energy, lowFreqEnergy, highFreqEnergy)]. *)
Fixpoint sumSquares (i : nat) (audioBuffer : list float) (acc : float * float * float)
  : float * float * float :=
  match audioBuffer with
  | [] => acc
  | sample :: rest =>
      let '(e, low, high) := acc in
      let sq := (sample * sample)%float in
      sumSquares (S i) rest
        ((e + sq)%float,
         if Nat.even i then (low + sq)%float else low,
         if Nat.even i then high else (high + sq)%float)
  end.

(** [audioBuffer.length] as a number. *)
Definition lengthOf (audioBuffer : list float) : float :=
  PrimFloat.of_uint63 (Uint63.of_Z (Z.of_nat (length audioBuffer))).

(** [analyzeFrequency(audioBuffer)] *)
Definition analyzeFrequency (audioBuffer : list float) : Spectrum :=
  let '(e, low, high) := sumSquares 0 audioBuffer (0, 0, 0)%float in
  let e' := PrimFloat.sqrt (e / lengthOf audioBuffer)%float in
  {| energy := e';
     lowFreqRatio := (low / (e' + 1))%float;
     highFreqRatio := (high / (e' + 1))%float |}.

Definition vowels : list string := ["A"; "E"; "O"; "U"].

(** [xs[Math.floor(r * xs.length)]]; an index outside the array reads
    [undefined]. *)
Definition pick (xs : list string) (r : Q) : option string :=
  let i := Qfloor (r * inject_Z (Z.of_nat (length xs))) in
  if (i <? 0)%Z then None else xs !! Z.to_nat i.

(** [detectPhonemeCategory(spectrum)]; [r] is the one draw the taken branch
    makes. Comparisons with NaN are false. *)
Definition detectPhonemeCategory (s : Spectrum) (r : Q) : option string :=
  if PrimFloat.ltb (energy s) 0.01 then Some "rest"
  else if PrimFloat.ltb 0.55 (lowFreqRatio s) then pick vowels r
  else if PrimFloat.ltb 0.55 (highFreqRatio s)
       then Some (if Animation.Qgtb r 0.5 then "F" else "S")
  else Some (if Animation.Qgtb r 0.5 then "M" else "N").

(** An event as the mock builds it. *)
Record RawEvent : Type := {
  raw_phoneme : option string;
  raw_start : float;
  raw_duration : float
}.

(** [analyzeAudio(audioBuffer, sampleRate)] *)
Definition analyzeAudio (audioBuffer : list float) (sampleRate : float) (r : Q)
  : list RawEvent :=
  [ {| raw_phoneme := detectPhonemeCategory (analyzeFrequency audioBuffer) r;
       raw_start := 0%float;
       raw_duration := (lengthOf audioBuffer / sampleRate)%float |} ].

(** The labels the mock can put into an event. *)
Definition mockLabels : list string :=
  ["rest"; "A"; "E"; "O"; "U"; "F"; "S"; "M"; "N"].

(** The categories those labels stand for. *)
Definition mockCategories : list string :=
  ["idle"; "a"; "e"; "o"; "u"; "f"; "m"].

End Engine.

(** ** audio.js: the level meter *)

Module Meter.

Import Audio.

(** [getAudioLevel()]; [dataArray] is what [getByteFrequencyData] reports. *)
Definition getAudioLevel (dataArray : list Z) (a : AudioState) : Z :=
  if negb (analyser a) || negb (isAudioRunning a) then 0%Z
  else
    let sum := fold_left Z.add dataArray 0%Z in
    let average := (inject_Z sum / inject_Z (Z.of_nat (length dataArray)))%Q in
    Z.min 100 (Qfloor (average / 255 * 100)).

(** [isMicrophoneRunning()] *)
Definition isMicrophoneRunning (a : AudioState) : bool := isAudioRunning a.

(** The values of a [Uint8Array]. *)
Definition bytes (dataArray : list Z) : Prop :=
  Forall (fun b => (0 <= b <= 255)%Z) dataArray.

End Meter.

(** ** animation.js: asset loading and the diagnostic snapshot *)

Module Assets.

Import Animation.

(** The animation state together with [animationState.bodySprite]. *)
Record Stage : Type := {
  sprites : AnimationState;
  bodySprite : option SpriteData
}.

Definition stage0 (r : Q) : Stage :=
  {| sprites := animationState0 r; bodySprite := None |}.

(** [initAnimation(layers)] with the body placeholder. *)
Definition initAnimation (s : Stage) : Stage :=
  {| sprites := Animation.initAnimation (sprites s);
     bodySprite := Some {| visible := true; loaded := false |} |}.

(** [assetType.replace(p, '')] when [assetType] starts with [p]. *)
Definition removePrefix (p assetType : string) : string :=
  String.substring (String.length p)
                   (String.length assetType - String.length p) assetType.

(** Which entry an asset type names. *)
Inductive target : Type :=
| TMouth (mouthType : string)
| TEye (eyeState : string)
| TBody.

(** The first half of [loadAssetSprite]: find [spriteData]. *)
Definition findSprite (assetType : string) (s : Stage) : option target :=
  if String.prefix "mouth_" assetType then
    let mouthType := removePrefix "mouth_" assetType in
    (fun _ => TMouth mouthType) <$> Map_get mouthType (mouthSprites (sprites s))
  else if String.prefix "eye_" assetType then
    let eyeState := removePrefix "eye_" assetType in
    (fun _ => TEye eyeState) <$> Map_get eyeState (eyeSprites (sprites s))
  else if String.eqb assetType "body" then
    (fun _ => TBody) <$> bodySprite s
  else None.

(** What [loadSpriteImage] leaves in the entry: a new Pixi sprite, which is
    visible, and [loaded = true]. *)
Definition loadedSprite : SpriteData := {| visible := true; loaded := true |}.

Inductive loadOutcome : Type :=
| Loaded
| UnknownAssetType
| LoadFailed.

Definition set_mouthSprites (m : SpriteMap) (st : AnimationState) : AnimationState :=
  {| mouthSprites := m; eyeSprites := eyeSprites st;
     currentMouthType := currentMouthType st;
     currentEyeState := currentEyeState st;
     blinkTimer := blinkTimer st; blinkDuration := blinkDuration st;
     isBlinking := isBlinking st; nextBlinkTime := nextBlinkTime st;
     timeSinceLastBlink := timeSinceLastBlink st |}.

Definition set_eyeSprites (m : SpriteMap) (st : AnimationState) : AnimationState :=
  {| mouthSprites := mouthSprites st; eyeSprites := m;
     currentMouthType := currentMouthType st;
     currentEyeState := currentEyeState st;
     blinkTimer := blinkTimer st; blinkDuration := blinkDuration st;
     isBlinking := isBlinking st; nextBlinkTime := nextBlinkTime st;
     timeSinceLastBlink := timeSinceLastBlink st |}.

(** [loadAssetSprite(assetType, assetUrl)]; [imageLoads] tells whether the
    image loads. A failure is caught and logged, nothing is changed. *)
Definition loadAssetSprite (assetType : string) (imageLoads : bool) (s : Stage)
  : Stage * loadOutcome :=
  match findSprite assetType s with
  | None => (s, UnknownAssetType)
  | Some t =>
      if imageLoads then
        (match t with
         | TMouth k =>
             {| sprites := set_mouthSprites
                             (Map_set k loadedSprite (mouthSprites (sprites s)))
                             (sprites s);
                bodySprite := bodySprite s |}
         | TEye k =>
             {| sprites := set_eyeSprites
                             (Map_set k loadedSprite (eyeSprites (sprites s)))
                             (sprites s);
                bodySprite := bodySprite s |}
         | TBody => {| sprites := sprites s; bodySprite := Some loadedSprite |}
         end, Loaded)
      else (s, LoadFailed)
  end.

Record Snapshot : Type := {
  snap_mouth : string;
  snap_eye : string;
  snap_blinking : bool;
  loadedMouth : list string;
  loadedEyes : list string;
  bodyLoaded : bool
}.

(** The keys of the entries with [loaded] set, in [Map] order. *)
Definition loadedKeys (m : SpriteMap) : list string :=
  map fst (List.filter (fun kd => loaded kd.2) m).

(** [getAnimationState()]; reading [bodySprite.loaded] throws while
    [bodySprite] is [null]. *)
Definition getAnimationState (s : Stage) : option Snapshot :=
  match bodySprite s with
  | None => None
  | Some body =>
      Some {| snap_mouth := currentMouthType (sprites s);
              snap_eye := currentEyeState (sprites s);
              snap_blinking := isBlinking (sprites s);
              loadedMouth := loadedKeys (mouthSprites (sprites s));
              loadedEyes := loadedKeys (eyeSprites (sprites s));
              bodyLoaded := loaded body |}
  end.

(** The visible mouth sprites, in [Map] order. *)
Definition visibleMouths (st : AnimationState) : list string :=
  map fst (List.filter (fun kd => visible kd.2) (mouthSprites st)).

End Assets.

(** ** main.js: console helpers and what a session captures and delivers *)

Module Session.

Import Main.

(** [window.testMouthAnimation(mouthType)] *)
Definition testMouthAnimation (mouthType : value) (w : World) : World :=
  let s := appState w in
  set_appState
    {| testMode := testMode s; isMicEnabled := isMicEnabled s;
       isAudioTestMode := isAudioTestMode s;
       phonemeCategory := mouthType;
       currentMouthState := currentMouthState s;
       currentEyeState := currentEyeState s |} w.

(** The frame an event pushes onto [audioBuffers], if any. *)
Definition pushedBy (e : event) (w : World) : list Audio.AudioFrame :=
  match e with
  | AudioProcess input now =>
      if Audio.scriptProcessor (audio w) then
        match Audio.audioContext (audio w) with
        | Some rate => [Audio.frameOf rate (input, now)]
        | None => []
        end
      else []
  | _ => []
  end.

(** Every frame pushed during a session, in order. *)
Fixpoint captured (es : list event) (w : World) : list Audio.AudioFrame :=
  match es with
  | [] => []
  | e :: es' => pushedBy e w ++ captured es' (step e w).1
  end.

(** The frames handed to the classifier, in order. *)
Definition delivered (o : list obs) : list Audio.AudioFrame :=
  flat_map (fun x => match x with
                     | CycleStart _ (Some f) => [f]
                     | _ => []
                     end) o.

(** Events other than a classification result. *)
Definition unanswered (e : event) : bool :=
  match e with Classified _ _ => false | _ => true end.

(** Events that neither deliver a classification nor move the mouth by
    hand. *)
Definition quiet (e : event) : bool :=
  match e with Classified _ _ | MouthChange _ => false | _ => true end.

(** The capture flags agree with each other and with the flag of the UI,
    and the shared queue is the capture array exactly while the capture
    runs; a queue of its own is empty. *)
Definition consistent (w : World) : Prop :=
  let a := audio w in
  is_Some (Audio.audioContext a) /\
  Audio.mediaStream a = Audio.isAudioRunning a /\
  Audio.scriptProcessor a = Audio.isAudioRunning a /\
  Audio.analyser a = Audio.isAudioRunning a /\
  isMicEnabled (appState w) = Audio.isAudioRunning a /\
  match Audio.windowQueue a with
  | Audio.QShared => Audio.isAudioRunning a = true
  | Audio.QOwn l => l = [] /\ Audio.isAudioRunning a = false
  | Audio.QUndefined => Audio.isAudioRunning a = false
  end.

(** Eyes open, the clock at 0, the hold at 0.15 s and the deadline in the
    2 to 5 second range: the state after start-up and after every blink. *)
Definition fresh (st : Animation.AnimationState) : Prop :=
  Animation.isBlinking st = false /\
  Animation.timeSinceLastBlink st = 0%Q /\
  (Animation.blinkDuration st == 0.15)%Q /\
  (2 <= Animation.nextBlinkTime st < 5)%Q.

(** Every draw is a value of [Math.random()]. *)
Definition fair (rand : nat -> Q) : Prop := forall i, (0 <= rand i < 1)%Q.

(** The draws of frame [a] onwards. *)
Definition later (rand : nat -> Q) (a : nat) : nat -> Q := fun i => rand (a + i)%nat.

End Session.

(** * Properties *)

(** ** The resolver of lipsync.js *)

Module LipSyncFacts.

Import LipSync.

Lemma PHONEME_MAP_values (k c : string) :
  PHONEME_MAP !! k = Some c -> c ∈ mouthTypes.
Proof.
  intros H. apply elem_of_list_to_map_2 in H.
  unfold mouthTypes.
  repeat (apply elem_of_cons in H as [H | H];
          [injection H as _ ->; set_solver |]).
  by apply elem_of_nil in H.
Qed.

Lemma idle_is_viseme : is_viseme (VStr "idle").
Proof. exists "idle". split; [done | set_solver]. Qed.

Lemma closed_is_viseme : is_viseme (VStr "closed").
Proof. exists "closed". split; [done | set_solver]. Qed.

Lemma viseme_truthy (v : value) : is_viseme v -> truthy v = true.
Proof.
  intros (s & -> & Hs). unfold mouthTypes in Hs. simpl.
  repeat (apply elem_of_cons in Hs as [-> | Hs]; [done |]).
  by apply elem_of_nil in Hs.
Qed.

(** The candidate of a label that names no inherited member is a viseme. *)
Lemma candidate_is_viseme (e : PhonemeEvent) :
  phonemeChar e ∉ Object_prototype_keys -> is_viseme (candidate e).
Proof.
  intros Hk. unfold candidate.
  destruct (String.eqb _ "rest" || String.eqb _ "silent");
    [apply idle_is_viseme |].
  unfold PHONEME_MAP_get.
  destruct (PHONEME_MAP !! phonemeChar e) as [c |] eqn:Hc.
  - pose proof (PHONEME_MAP_values _ _ Hc) as Hin.
    unfold js_or. rewrite (viseme_truthy (VStr c)); by exists c.
  - rewrite bool_decide_eq_false_2; [| done]. apply closed_is_viseme.
Qed.

Lemma smooth_cases (factor r : Q) (previous : option value) (category : value) :
  smooth factor r previous category = category \/
  previous = Some (smooth factor r previous category).
Proof.
  unfold smooth. destruct previous as [prev |]; [| by left].
  destruct (truthy prev && negb (strict_eq prev category)); [| by left].
  destruct (shouldSwitch factor r); [by left | by right].
Qed.

Lemma remember_length (h : list value) (c : value) :
  (length h <= 10)%nat -> (length (remember h c) <= 10)%nat.
Proof.
  intros Hh. unfold remember.
  destruct (decide _) as [Hlt | Hge];
    rewrite ?length_drop, length_app; rewrite length_app in *; simpl in *; lia.
Qed.

Lemma remember_spec (h : list value) (c : value) :
  (length h <= 10)%nat ->
  remember h c = drop (length (h ++ [c]) - 10) (h ++ [c]).
Proof.
  intros Hh. unfold remember. rewrite length_app. simpl.
  destruct (decide _) as [Hlt | Hge].
  - replace (length h + 1 - 10)%nat with 1%nat by lia. done.
  - replace (length h + 1 - 10)%nat with 0%nat by lia. done.
Qed.

Lemma remember_last (h : list value) (c : value) :
  last (remember h c) = Some c.
Proof.
  unfold remember. destruct (decide _) as [Hlt | Hge].
  - rewrite length_app in Hlt. simpl in Hlt.
    rewrite drop_app_le by lia. apply last_snoc.
  - apply last_snoc.
Qed.

Lemma remember_Forall (P : value -> Prop) (h : list value) (c : value) :
  Forall P h -> P c -> Forall P (remember h c).
Proof.
  intros Hh Hc. unfold remember.
  assert (Forall P (h ++ [c])) by (apply Forall_app; auto).
  destruct (decide _); [by apply Forall_drop | done].
Qed.

(** With factor 0 the draw never allows a switch: once the history has a
    last entry, that entry is emitted again whatever the candidate. *)
Lemma factor_zero_locks (r : Q) (e : PhonemeEvent) (h : list value) (prev : value) :
  (r <= 1)%Q -> last h = Some prev -> truthy prev = true ->
  fst (getPhonemeCategory_with 0 r (Some e) h) = prev.
Proof.
  intros Hr Hlast Htr. simpl. rewrite Hlast. unfold smooth. rewrite Htr. simpl.
  unfold strict_eq. case_bool_decide as Heq; simpl; [done |].
  unfold shouldSwitch.
  assert (Qle_bool r (1 - 0) = true) as ->; [| done].
  apply Qle_bool_iff. lra.
Qed.

(** With factor 1 every draw above 0 allows the switch: the candidate is
    emitted at once. *)
Lemma factor_one_switches (r : Q) (e : PhonemeEvent) (h : list value) :
  (0 < r)%Q ->
  fst (getPhonemeCategory_with 1 r (Some e) h) = candidate e.
Proof.
  intros Hr. simpl. unfold smooth.
  destruct (last h) as [prev |]; [| done].
  destruct (truthy prev && negb (strict_eq prev (candidate e))); [| done].
  unfold shouldSwitch.
  destruct (Qle_bool r (1 - 1)) eqn:Hle; [| done].
  apply Qle_bool_iff in Hle. lra.
Qed.


Lemma getPhonemeCategory_length (r : Q) (ev : option PhonemeEvent) (h : list value) :
  (length h <= 10)%nat -> (length (getPhonemeCategory r ev h).2 <= 10)%nat.
Proof.
  intros Hh. destruct ev as [e |]; simpl; [by apply remember_length | done].
Qed.

(** C4 (counterexample): a call with an absent event emits ["idle"] and the
    history is left as it was, nothing is appended. *)
Lemma absent_event_not_recorded :
  let '(c, h') := getPhonemeCategory (1 # 2) None [VStr "a"] in
  c = VStr "idle" /\ h' = [VStr "a"] /\ h' <> [VStr "a"] ++ [c].
Proof. vm_compute. repeat split; congruence. Qed.

(** C4 (amended): a call with a present event appends the emitted category at
    the tail of the history and keeps the 10 newest entries, the oldest one
    leaving from the front; a call with an absent event emits ["idle"] and
    leaves the history untouched; either way a history of at most 10 entries
    stays at most 10 long. *)
Theorem history_maintenance (r : Q) (ev : option PhonemeEvent) (h : list value) :
  (length h <= 10)%nat ->
  let '(c, h') := getPhonemeCategory r ev h in
  (length h' <= 10)%nat /\
  match ev with
  | None => c = VStr "idle" /\ h' = h
  | Some _ =>
      h' = drop (length (h ++ [c]) - 10) (h ++ [c]) /\ last h' = Some c
  end.
Proof.
  intros Hh. pose proof (getPhonemeCategory_length r ev h Hh) as Hlen.
  destruct ev as [e |]; simpl in *.
  - split; [done |]. split; [by apply remember_spec | apply remember_last].
  - auto.
Qed.

Lemma history_maintenance_witness :
  (length full_history <= 10)%nat /\
  let '(c, h') := getPhonemeCategory (1 # 2) (Some (mkEvent "A")) full_history in
  (length h' <= 10)%nat /\
  h' = drop (length (full_history ++ [c]) - 10) (full_history ++ [c]) /\
  last h' = Some c.
Proof.
  split; [vm_compute; lia |].
  apply (history_maintenance (1 # 2) (Some (mkEvent "A")) full_history).
  vm_compute; lia.
Defined.

(** The history stays bounded along every sequence of calls. *)
Lemma history_bounded (calls : list (Q * option PhonemeEvent)) (h : list value) :
  (length h <= 10)%nat -> (length (snd (resolve_all calls h)) <= 10)%nat.
Proof.
  revert h. induction calls as [| [r ev] calls IH]; intros h Hh; [done |].
  simpl. pose proof (getPhonemeCategory_length r ev h Hh) as Hlen.
  destruct (getPhonemeCategory r ev h) as [c h1].
  specialize (IH h1 Hlen). destruct (resolve_all calls h1). done.
Qed.

(** Visemes in, visemes out, for labels that name no inherited member. *)
Lemma getPhonemeCategory_visemes (r : Q) (ev : option PhonemeEvent) (h : list value) :
  Forall is_viseme h ->
  (forall e, ev = Some e -> phonemeChar e ∉ Object_prototype_keys) ->
  is_viseme (getPhonemeCategory r ev h).1 /\
  Forall is_viseme (getPhonemeCategory r ev h).2.
Proof.
  intros Hh Hkey. destruct ev as [e |]; simpl.
  2: { split; [apply idle_is_viseme | done]. }
  specialize (Hkey e eq_refl).
  pose proof (candidate_is_viseme e Hkey) as Hcand.
  assert (is_viseme (smooth SMOOTHING_FACTOR r (last h) (candidate e))) as Hc.
  { destruct (smooth_cases SMOOTHING_FACTOR r (last h) (candidate e))
      as [-> | Hprev]; [done |].
    apply last_Some_elem_of in Hprev.
    by apply (proj1 (Forall_forall _ _) Hh). }
  split; [done | by apply remember_Forall].
Qed.




(** From the empty history, labels that name no inherited member only ever
    produce visemes. *)
Lemma resolve_all_visemes (calls : list (Q * option PhonemeEvent)) (h : list value) :
  Forall is_viseme h ->
  Forall (fun c => forall e, c.2 = Some e -> phonemeChar e ∉ Object_prototype_keys)
         calls ->
  Forall is_viseme (fst (resolve_all calls h)).
Proof.
  revert h. induction calls as [| [r ev] calls IH]; intros h Hh Hc; [constructor |].
  simpl. inversion Hc as [| ? ? Hev Hrest]; subst. simpl in Hev.
  destruct (getPhonemeCategory_visemes r ev h Hh Hev) as [Hv Hh1].
  destruct (getPhonemeCategory r ev h) as [c h1]. simpl in *.
  specialize (IH h1 Hh1 Hrest). destruct (resolve_all calls h1).
  by constructor.
Qed.

End LipSyncFacts.

(** ** The capture buffer of audio.js *)

Module AudioFacts.

Import Audio.

Lemma pushFrame_length (f : AudioFrame) (buf : list AudioFrame) :
  (length buf <= 15)%nat -> (length (pushFrame f buf) <= 15)%nat.
Proof.
  intros Hb. unfold pushFrame.
  destruct (decide _) as [Hlt | Hge];
    rewrite ?length_drop, length_app; rewrite length_app in *; simpl in *; lia.
Qed.

(** When the buffer is full the oldest frame alone leaves. *)
Lemma pushFrame_full (f : AudioFrame) (buf : list AudioFrame) :
  length buf = 15%nat -> pushFrame f buf = drop 1 buf ++ [f].
Proof.
  intros Hb. unfold pushFrame. rewrite length_app, Hb. simpl.
  rewrite drop_app_le by lia. done.
Qed.

Lemma pushFrame_room (f : AudioFrame) (buf : list AudioFrame) :
  (length buf < 15)%nat -> pushFrame f buf = buf ++ [f].
Proof.
  intros Hb. unfold pushFrame. rewrite length_app. simpl.
  destruct (decide _); [lia | done].
Qed.

(** Pushing onto the newest 15 of [l] leaves the newest 15 of [l ++ [f]]. *)
Lemma pushFrame_newest (f : AudioFrame) (l : list AudioFrame) :
  pushFrame f (drop (length l - 15) l)
  = drop (length (l ++ [f]) - 15) (l ++ [f]).
Proof.
  rewrite length_app. simpl.
  destruct (decide (length l < 15)%nat) as [Hlt | Hge].
  - replace (length l - 15)%nat with 0%nat by lia.
    replace (length l + 1 - 15)%nat with 0%nat by lia.
    simpl. by apply pushFrame_room.
  - rewrite pushFrame_full by (rewrite length_drop; lia).
    rewrite drop_drop.
    replace (length l + 1 - 15)%nat with (length l - 15 + 1)%nat by lia.
    rewrite drop_app_le by lia. done.
Qed.

Lemma captureAll_snoc (cs : list (list Q * Z)) (c : list Q * Z) (a : AudioState) :
  captureAll (cs ++ [c]) a = onaudioprocess c.1 c.2 (captureAll cs a).
Proof. unfold captureAll. by rewrite fold_left_app. Qed.

Lemma captureAll_buffers (cs : list (list Q * Z)) (a : AudioState) (rate : Z) :
  scriptProcessor a = true -> audioContext a = Some rate ->
  (length (audioBuffers a) <= 15)%nat ->
  let a' := captureAll cs a in
  scriptProcessor a' = true /\ audioContext a' = Some rate /\
  audioBuffers a'
  = drop (length (audioBuffers a ++ map (frameOf rate) cs) - 15)
         (audioBuffers a ++ map (frameOf rate) cs).
Proof.
  intros Hsp Hctx Hlen. induction cs as [| c cs IH] using rev_ind.
  - simpl. rewrite app_nil_r.
    replace (length (audioBuffers a) - 15)%nat with 0%nat by lia. done.
  - simpl in *. destruct IH as (Hsp' & Hctx' & Hbuf).
    rewrite captureAll_snoc. unfold onaudioprocess. rewrite Hsp', Hctx'. simpl.
    split; [done |]. split; [done |].
    rewrite Hbuf, map_app, app_assoc. simpl.
    apply (pushFrame_newest (frameOf rate c)).
Qed.

(** C5: while the capture callback pushes frames, the buffer never holds
    more than 15; it holds the newest 15 of everything pushed so far, in the
    order pushed; once 15 or more frames were pushed it holds exactly the 15
    most recently pushed ones; and a push onto a full buffer drops the
    single oldest frame. *)
Theorem frame_buffer_newest_fifo
    (cs : list (list Q * Z)) (a : AudioState) (rate : Z) :
  scriptProcessor a = true -> audioContext a = Some rate ->
  (length (audioBuffers a) <= 15)%nat ->
  let pushed := map (frameOf rate) cs in
  let buf := audioBuffers (captureAll cs a) in
  (length buf <= 15)%nat /\
  buf = drop (length (audioBuffers a ++ pushed) - 15) (audioBuffers a ++ pushed) /\
  ((15 <= length cs)%nat ->
   buf = drop (length pushed - 15) pushed /\ length buf = 15%nat) /\
  (forall f, length buf = 15%nat -> pushFrame f buf = drop 1 buf ++ [f]).
Proof.
  intros Hsp Hctx Hlen pushed buf.
  destruct (captureAll_buffers cs a rate Hsp Hctx Hlen) as (_ & _ & Hbuf).
  fold buf pushed in Hbuf.
  assert (length pushed = length cs) as Hp by apply length_map.
  split; [| split; [done | split]].
  - rewrite Hbuf, length_drop. lia.
  - intros Hcs. rewrite Hbuf. rewrite length_drop, !length_app.
    split; [| lia].
    replace (length (audioBuffers a) + length pushed - 15)%nat
      with (length (audioBuffers a) + (length pushed - 15))%nat by lia.
    by rewrite drop_app_add.
  - intros f. apply pushFrame_full.
Qed.

Lemma frame_buffer_newest_fifo_witness :
  scriptProcessor running = true /\ audioContext running = Some 16000%Z /\
  (length (audioBuffers running) <= 15)%nat /\
  (length (audioBuffers (captureAll seventeen running)) <= 15)%nat /\
  map timestamp (audioBuffers (captureAll seventeen running))
  = map Z.of_nat (seq 2 15).
Proof.
  assert (scriptProcessor running = true) as Hsp by reflexivity.
  assert (audioContext running = Some 16000%Z) as Hctx by reflexivity.
  assert (length (audioBuffers running) <= 15)%nat as Hlen by (simpl; lia).
  split; [exact Hsp |]. split; [exact Hctx |]. split; [exact Hlen |].
  destruct (frame_buffer_newest_fifo seventeen running 16000%Z Hsp Hctx Hlen)
    as (Hbound & _ & Hnew & _).
  split; [exact Hbound |].
  destruct Hnew as [-> _]; [vm_compute; lia |].
  reflexivity.
Defined.

End AudioFacts.

(** ** The mouth sprites of animation.js *)

Module MouthFacts.

Import Animation.

Lemma Map_get_Some_key (key : string) (m : SpriteMap) (d : SpriteData) :
  Map_get key m = Some d -> key ∈ map fst m.
Proof.
  induction m as [| [k d'] m IH]; simpl; [done |].
  destruct (String.eqb k key) eqn:Hk.
  - apply String.eqb_eq in Hk as ->. intros _. apply elem_of_cons. by left.
  - intros H. apply elem_of_cons. right. by apply IH.
Qed.

Lemma Map_get_key_Some (key : string) (m : SpriteMap) :
  key ∈ map fst m -> is_Some (Map_get key m).
Proof.
  induction m as [| [k d'] m IH]; simpl.
  - intros H. by apply elem_of_nil in H.
  - intros H. destruct (String.eqb k key) eqn:Hk; [by eexists |].
    apply String.eqb_neq in Hk.
    apply elem_of_cons in H as [-> | H]; [done | by apply IH].
Qed.

(** [initAnimation] creates exactly the eight mouth entries. *)
Lemma stage_mouth_keys (r : Q) : map fst (mouthSprites (stage r)) = mouthTypes.
Proof. reflexivity. Qed.

Lemma updateMouthSprite_keys (v : value) (st : AnimationState) :
  map fst (mouthSprites (updateMouthSprite v st).1) = map fst (mouthSprites st).
Proof.
  unfold updateMouthSprite.
  destruct (negb (truthy v) || strict_eq _ v); [done |].
  destruct v as [| cat |]; try done. simpl.
  destruct (Map_get cat (mouthSprites st)); [| done]. simpl.
  rewrite map_map. by apply map_ext.
Qed.

(** A second call with the same argument changes nothing and writes no
    visibility, whatever the argument. *)
Lemma updateMouthSprite_again (v : value) (st : AnimationState) :
  let st1 := (updateMouthSprite v st).1 in
  (updateMouthSprite v st1).1 = st1 /\
  List.filter is_render (updateMouthSprite v st1).2 = [].
Proof.
  unfold updateMouthSprite.
  destruct (negb (truthy v) || strict_eq (VStr (currentMouthType st)) v) eqn:Hg.
  - simpl. by rewrite Hg.
  - destruct v as [| cat |]; cbn [Map_get_value fst snd].
    + by rewrite Hg.
    + destruct (Map_get cat (mouthSprites st)) eqn:Hget; cbn [fst snd].
      * cbn [currentMouthType]. unfold strict_eq.
        rewrite bool_decide_eq_true_2 by done. by rewrite orb_true_r.
      * rewrite Hg. cbn [Map_get_value]. by rewrite Hget.
    + by rewrite Hg.
Qed.

(** The two outcomes of a call with a truthy string. *)
Lemma updateMouthSprite_same (X : string) (st : AnimationState) :
  currentMouthType st = X -> updateMouthSprite (VStr X) st = (st, []).
Proof.
  intros <-. unfold updateMouthSprite, strict_eq.
  rewrite bool_decide_eq_true_2 by done. by rewrite orb_true_r.
Qed.

Lemma updateMouthSprite_change (X : string) (st : AnimationState) (d : SpriteData) :
  truthy (VStr X) = true -> currentMouthType st <> X ->
  Map_get X (mouthSprites st) = Some d ->
  exists st1,
    updateMouthSprite (VStr X) st
    = (st1, map (fun kd => SetVisible kd.1 (String.eqb kd.1 X)) (mouthSprites st)) /\
    currentMouthType st1 = X /\
    mouthSprites st1
    = map (fun kd => (kd.1, set_visible (String.eqb kd.1 X) kd.2)) (mouthSprites st).
Proof.
  intros Htr Hne Hget. unfold updateMouthSprite, strict_eq.
  rewrite Htr, bool_decide_eq_false_2 by congruence.
  cbn [negb orb Map_get_value]. rewrite Hget.
  eexists. split; [reflexivity |]. split; reflexivity.
Qed.

(** C9: two calls in a row with the same category change the visibilities and
    [currentMouthType] at most once: the second call returns the state of the
    first and writes no visibility. On an initialised stage and for a viseme
    category, a call with the current category does nothing, and a call with
    another category makes exactly one pass over the mouth sprites, writing
    each visibility once, showing the sprite of the new category alone, and
    sets [currentMouthType] to it. *)
Theorem mouth_update_idempotent (X : string) (st : AnimationState) :
  map fst (mouthSprites st) = mouthTypes ->
  X ∈ mouthTypes ->
  let '(st1, log1) := updateMouthSprite (VStr X) st in
  let '(st2, log2) := updateMouthSprite (VStr X) st1 in
  st2 = st1 /\ log2 = [] /\
  (currentMouthType st = X -> st1 = st /\ log1 = []) /\
  (currentMouthType st <> X ->
   currentMouthType st1 = X /\
   log1 = map (fun type => SetVisible type (String.eqb type X)) mouthTypes /\
   map (fun kd => (kd.1, visible kd.2)) (mouthSprites st1)
   = map (fun type => (type, String.eqb type X)) mouthTypes).
Proof.
  intros Hkeys HX.
  assert (truthy (VStr X) = true) as Htr.
  { apply LipSyncFacts.viseme_truthy. by exists X. }
  assert (is_Some (Map_get X (mouthSprites st))) as [d Hget].
  { apply Map_get_key_Some. by rewrite Hkeys. }
  destruct (decide (currentMouthType st = X)) as [Hcur | Hcur].
  - rewrite (updateMouthSprite_same X st Hcur).
    rewrite (updateMouthSprite_same X st Hcur).
    repeat split; done.
  - destruct (updateMouthSprite_change X st d Htr Hcur Hget)
      as (st1 & -> & Hcur1 & Hm1).
    rewrite (updateMouthSprite_same X st1 Hcur1).
    split; [done |]. split; [done |]. split; [done |]. intros _.
    split; [done |]. rewrite Hm1, <- Hkeys, !map_map. done.
Qed.

Lemma mouth_update_idempotent_witness :
  map fst (mouthSprites (stage 0)) = mouthTypes /\
  "a" ∈ mouthTypes /\
  currentMouthType (stage 0) <> "a" /\
  let '(st1, log1) := updateMouthSprite (VStr "a") (stage 0) in
  let '(st2, log2) := updateMouthSprite (VStr "a") st1 in
  st2 = st1 /\ log2 = [] /\ currentMouthType st1 = "a" /\
  log1 = map (fun type => SetVisible type (String.eqb type "a")) mouthTypes.
Proof.
  assert ("a" ∈ mouthTypes) as Ha by (unfold mouthTypes; set_solver).
  assert (currentMouthType (stage 0) <> "a") as Hne by (simpl; congruence).
  split; [reflexivity |]. split; [exact Ha |]. split; [exact Hne |].
  pose proof (mouth_update_idempotent "a" (stage 0) eq_refl Ha) as H.
  destruct (updateMouthSprite (VStr "a") (stage 0)) as [st1 log1].
  destruct (updateMouthSprite (VStr "a") st1) as [st2 log2].
  destruct H as (H2 & Hlog2 & _ & Hchg).
  destruct (Hchg Hne) as (Hcur & Hlog1 & _).
  repeat split; assumption.
Defined.

(** C10: on an initialised stage, a call with a value that is not one of the
    eight mouth types returns the animation state as it was and writes no
    sprite visibility; when the value is truthy and differs from the current
    type all it does is warn. *)
Theorem unknown_mouth_type_ignored (v : value) (st : AnimationState) :
  map fst (mouthSprites st) = mouthTypes ->
  ~ is_viseme v ->
  let '(st', log) := updateMouthSprite v st in
  st' = st /\ List.filter is_render log = [] /\
  (truthy v = true -> VStr (currentMouthType st) <> v ->
   log = [WarnUnknownMouth v]).
Proof.
  intros Hkeys Hv. unfold updateMouthSprite.
  destruct (truthy v) eqn:Htr; cbn [negb orb].
  2: { repeat split; done. }
  unfold strict_eq. case_bool_decide as Hcur.
  { repeat split; done. }
  destruct v as [| cat |]; cbn [Map_get_value]; [done | | done].
  destruct (Map_get cat (mouthSprites st)) eqn:Hget; [| done].
  exfalso. apply Hv. exists cat. split; [done |].
  rewrite <- Hkeys. by eapply Map_get_Some_key.
Qed.

Lemma unknown_mouth_type_ignored_witness :
  map fst (mouthSprites (stage 0)) = mouthTypes /\
  ~ is_viseme (VStr "smile") /\
  updateMouthSprite (VStr "smile") (stage 0)
  = (stage 0, [WarnUnknownMouth (VStr "smile")]).
Proof.
  assert (~ is_viseme (VStr "smile")) as Hv.
  { intros (s & [= <-] & Hs). unfold mouthTypes in Hs.
    repeat (apply elem_of_cons in Hs as [Hs | Hs]; [discriminate |]).
    by apply elem_of_nil in Hs. }
  split; [reflexivity |]. split; [exact Hv |].
  pose proof (unknown_mouth_type_ignored (VStr "smile") (stage 0) eq_refl Hv) as H.
  destruct (updateMouthSprite (VStr "smile") (stage 0)) as [st' log].
  destruct H as (-> & _ & Hlog).
  rewrite Hlog; [reflexivity | reflexivity | simpl; congruence].
Defined.

End MouthFacts.

(** ** The blink machine of animation.js *)

Module BlinkFacts.

Import Animation.

Local Open Scope Q_scope.

Lemma qn_S (k : nat) : qn (S k) == qn k + 1.
Proof. unfold qn. rewrite Nat2Z.inj_succ, <- Z.add_1_r, inject_Z_plus. reflexivity. Qed.

Lemma qn_le (j k : nat) : (j <= k)%nat -> qn j <= qn k.
Proof. intros H. unfold qn. rewrite <- Zle_Qle. lia. Qed.

Lemma qn_0 : qn 0 == 0.
Proof. reflexivity. Qed.

Lemma Qgeb_true (a b : Q) : b <= a -> Qgeb a b = true.
Proof. intros H. by apply Qle_bool_iff. Qed.

Lemma Qgeb_false (a b : Q) : a < b -> Qgeb a b = false.
Proof.
  intros H. unfold Qgeb. destruct (Qle_bool b a) eqn:Hle; [| done].
  apply Qle_bool_iff in Hle. lra.
Qed.

Lemma Qgtb_true (a b : Q) : b < a -> Qgtb a b = true.
Proof.
  intros H. unfold Qgtb. destruct (Qle_bool a b) eqn:Hle; [| done].
  apply Qle_bool_iff in Hle. lra.
Qed.

Lemma Qgtb_false (a b : Q) : a <= b -> Qgtb a b = false.
Proof. intros H. unfold Qgtb. by rewrite (proj2 (Qle_bool_iff a b) H). Qed.

(** *** The eye sprites *)

Lemma Map_get_show (key key' : string) (b : bool) (m : SpriteMap) :
  Map_get key (show key' b m)
  = (if String.eqb key key' then set_visible b else id) <$> Map_get key m.
Proof.
  induction m as [| [k d] m IH]; simpl; [done |].
  destruct (String.eqb k key') eqn:Hk'; simpl.
  - destruct (String.eqb k key) eqn:Hk; [| done].
    apply String.eqb_eq in Hk, Hk'. subst. by rewrite String.eqb_refl.
  - destruct (String.eqb k key) eqn:Hk; [| done].
    apply String.eqb_eq in Hk. subst. by rewrite Hk'.
Qed.

Lemma showEyes_spec (o c : bool) (m : SpriteMap) :
  is_Some (Map_get "open" m) -> is_Some (Map_get "closed" m) ->
  visible <$> Map_get "open" (showEyes o c m) = Some o /\
  visible <$> Map_get "closed" (showEyes o c m) = Some c.
Proof.
  intros [d1 H1] [d2 H2]. unfold showEyes. rewrite H1, H2.
  rewrite !Map_get_show, H1, H2. done.
Qed.

Lemma showEyes_present (o c : bool) (m : SpriteMap) (key : string) :
  is_Some (Map_get key (showEyes o c m)) <-> is_Some (Map_get key m).
Proof.
  unfold showEyes.
  destruct (Map_get "open" m), (Map_get "closed" m); try done.
  rewrite !Map_get_show. rewrite !fmap_is_Some. done.
Qed.

(** *** One frame, case by case *)

Section OneFrame.

Variables (r : Q) (s : AnimationState).

Let s' := updateEyeSprite r s.

(** Fields that no frame touches. *)
Lemma frame_keeps :
  blinkDuration s' = blinkDuration s /\
  currentEyeState s' = currentEyeState s /\
  mouthSprites s' = mouthSprites s /\
  currentMouthType s' = currentMouthType s /\
  (eyes_present s -> eyes_present s').
Proof.
  unfold s', updateEyeSprite, eyes_present.
  do 4 (split; [by repeat case_match |]).
  intros [Ho Hc].
  repeat case_match; simpl; split; try done; by apply showEyes_present.
Qed.

(** Eyes open, deadline not reached: time accumulates. *)
Lemma frame_waiting :
  isBlinking s = false ->
  timeSinceLastBlink s + dt < nextBlinkTime s ->
  isBlinking s' = false /\
  timeSinceLastBlink s' = timeSinceLastBlink s + dt /\
  nextBlinkTime s' = nextBlinkTime s /\
  eyeSprites s' = eyeSprites s.
Proof.
  intros Hb Ht. unfold s', updateEyeSprite. rewrite Hb.
  rewrite Qgeb_false by done. done.
Qed.

(** Eyes open, deadline reached: the blink begins; the sprites are not
    touched in this frame. *)
Lemma frame_trigger :
  isBlinking s = false ->
  nextBlinkTime s <= timeSinceLastBlink s + dt ->
  isBlinking s' = true /\ blinkTimer s' = 0 /\
  nextBlinkTime s' = nextBlinkTime s /\
  eyeSprites s' = eyeSprites s.
Proof.
  intros Hb Ht. unfold s', updateEyeSprite. rewrite Hb.
  rewrite Qgeb_true by done. done.
Qed.

(** Blinking, hold not over: the closed eye is shown. *)
Lemma frame_holding :
  isBlinking s = true ->
  blinkTimer s + dt <= blinkDuration s ->
  isBlinking s' = true /\ blinkTimer s' = blinkTimer s + dt /\
  nextBlinkTime s' = nextBlinkTime s /\
  eyeSprites s' = showEyes false true (eyeSprites s).
Proof.
  intros Hb Ht. unfold s', updateEyeSprite. rewrite Hb.
  rewrite Qgtb_false by done. done.
Qed.

(** Blinking, hold over: the eye opens, the clock restarts and a new
    deadline is drawn. *)
Lemma frame_finish :
  isBlinking s = true ->
  blinkDuration s < blinkTimer s + dt ->
  isBlinking s' = false /\ blinkTimer s' = 0 /\
  timeSinceLastBlink s' = 0 /\
  nextBlinkTime s' = r * 3 + 2 /\
  eyeSprites s' = showEyes true false (eyeSprites s).
Proof.
  intros Hb Ht. unfold s', updateEyeSprite. rewrite Hb.
  rewrite Qgtb_true by done. done.
Qed.

End OneFrame.

(** Fields that no sequence of frames touches. *)
Lemma ticks_keeps (rand : nat -> Q) (k : nat) (st : AnimationState) :
  blinkDuration (ticks rand k st) = blinkDuration st /\
  currentEyeState (ticks rand k st) = currentEyeState st /\
  (eyes_present st -> eyes_present (ticks rand k st)).
Proof.
  induction k as [| k (IHd & IHc & IHe)]; [done |]. simpl.
  destruct (frame_keeps (rand k) (ticks rand k st)) as (Hd & Hc & _ & _ & He).
  rewrite Hd, Hc. auto.
Qed.

(** The frame counts of the hold are the same in double arithmetic: nine
    additions of [1 / 60] do not exceed [0.15], the tenth does. *)
Example hold_double_frames :
  PrimFloat.ltb 0.15%float (hold_double 9 0%float) = false /\
  PrimFloat.ltb 0.15%float (hold_double 10 0%float) = true.
Proof. split; vm_compute; reflexivity. Qed.

(** *** One blink cycle

    From a state with the eyes open, [n] is the first frame at which the
    accumulated time reaches the deadline. *)

Section Cycle.

Variables (rand : nat -> Q) (st : AnimationState) (n : nat).

Let t0 := timeSinceLastBlink st.
Let d := nextBlinkTime st.

Hypothesis Hopen : isBlinking st = false.
Hypothesis Hdur : blinkDuration st == 0.15.
Hypothesis Hn : (1 <= n)%nat.
Hypothesis Hbefore : n = 1%nat \/ t0 + qn (n - 1) * dt < d.
Hypothesis Hreach : d <= t0 + qn n * dt.

Lemma cycle_waiting (m : nat) :
  (m < n)%nat ->
  isBlinking (ticks rand m st) = false /\
  timeSinceLastBlink (ticks rand m st) == t0 + qn m * dt /\
  nextBlinkTime (ticks rand m st) = d /\
  eyeSprites (ticks rand m st) = eyeSprites st.
Proof.
  clear Hn Hreach. induction m as [| m IH]; intros Hm.
  - simpl. repeat split; try done. fold t0. rewrite qn_0. lra.
  - destruct IH as (Hb & Ht & Hd & He); [lia |]. simpl.
    destruct Hbefore as [-> | Hlt]; [lia |].
    pose proof (qn_le (S m) (n - 1) ltac:(lia)) as Hle.
    pose proof (qn_S m) as HS. unfold dt in *.
    destruct (frame_waiting (rand m) (ticks rand m st) Hb) as (Hb' & Ht' & Hd' & He').
    { rewrite Hd. unfold dt. lra. }
    rewrite Hb', Ht', Hd', He'. repeat split; try done. unfold dt. lra.
Qed.

Lemma cycle_trigger :
  isBlinking (ticks rand n st) = true /\
  blinkTimer (ticks rand n st) = 0 /\
  nextBlinkTime (ticks rand n st) = d /\
  eyeSprites (ticks rand n st) = eyeSprites st.
Proof.
  destruct (cycle_waiting (n - 1) ltac:(lia)) as (Hb & Ht & Hd & He).
  replace (ticks rand n st) with (ticks rand (S (n - 1)) st) by (f_equal; lia).
  simpl. pose proof (qn_S (n - 1)) as HS.
  replace (S (n - 1)) with n in HS by lia.
  destruct (frame_trigger (rand (n - 1)%nat) (ticks rand (n - 1) st) Hb)
    as (Hb' & Ht' & Hd' & He').
  { rewrite Hd. unfold dt in *. lra. }
  rewrite Hb', Ht', Hd', He'. done.
Qed.

Lemma cycle_holding (k : nat) :
  (k <= 9)%nat ->
  isBlinking (ticks rand (n + k) st) = true /\
  blinkTimer (ticks rand (n + k) st) == qn k * dt /\
  nextBlinkTime (ticks rand (n + k) st) = d /\
  (k = 0%nat -> eyeSprites (ticks rand (n + k) st) = eyeSprites st) /\
  ((1 <= k)%nat -> eyes_present st -> showsClosedEye (ticks rand (n + k) st)).
Proof.
  induction k as [| k IH]; intros Hk.
  - rewrite Nat.add_0_r. destruct cycle_trigger as (Hb & Ht & Hd & He).
    rewrite Hb, Ht, Hd. split; [done |]. split; [by rewrite qn_0 |].
    split; [done |]. split; [done | lia].
  - destruct IH as (Hb & Ht & Hd & _); [lia |].
    rewrite Nat.add_succ_r. simpl.
    destruct (ticks_keeps rand (n + k) st) as (Hdk & _ & Hek).
    pose proof (qn_le (S k) 9 Hk) as Hle.
    pose proof (qn_S k) as HS. unfold dt in *.
    assert (qn 9 == 9) as H9 by reflexivity.
    destruct (frame_holding (rand (n + k)) (ticks rand (n + k) st) Hb)
      as (Hb' & Ht' & Hd' & He').
    { rewrite Hdk. unfold dt. lra. }
    rewrite Hb', Ht', Hd'. repeat split; try done.
    + unfold dt. lra.
    + unfold eyeVisible. rewrite He'. apply showEyes_spec; by apply Hek.
    + unfold eyeVisible. rewrite He'. apply showEyes_spec; by apply Hek.
Qed.

Lemma cycle_finish :
  isBlinking (ticks rand (n + 10) st) = false /\
  timeSinceLastBlink (ticks rand (n + 10) st) = 0 /\
  nextBlinkTime (ticks rand (n + 10) st) = rand (n + 9)%nat * 3 + 2 /\
  (eyes_present st -> showsOpenEye (ticks rand (n + 10) st)).
Proof.
  destruct (cycle_holding 9 ltac:(lia)) as (Hb & Ht & _).
  replace (n + 10)%nat with (S (n + 9)) by lia. simpl.
  destruct (ticks_keeps rand (n + 9) st) as (Hdk & _ & Hek).
  assert (qn 9 == 9) as H9 by reflexivity.
  destruct (frame_finish (rand (n + 9)%nat) (ticks rand (n + 9) st) Hb)
    as (Hb' & _ & Ht' & Hd' & He').
  { rewrite Hdk. unfold dt in *. lra. }
  rewrite Hb', Ht', Hd'. repeat split; try done.
  - unfold eyeVisible. rewrite He'. apply showEyes_spec; by apply Hek.
  - unfold eyeVisible. rewrite He'. apply showEyes_spec; by apply Hek.
Qed.

End Cycle.



Lemma setEyeState_closed (st : AnimationState) :
  let s0 := setEyeState "closed" st in
  isBlinking s0 = false /\
  timeSinceLastBlink s0 = timeSinceLastBlink st /\
  nextBlinkTime s0 = nextBlinkTime st /\
  blinkDuration s0 = blinkDuration st /\
  currentEyeState s0 = "closed" /\
  (eyes_present st -> eyes_present s0 /\ showsClosedEye s0).
Proof.
  simpl. do 5 (split; [done |]). intros [Ho Hc]. split.
  - split; by apply showEyes_present.
  - unfold showsClosedEye, eyeVisible. simpl. by apply showEyes_spec.
Qed.




End BlinkFacts.

(** ** The driver of main.js *)

Module MainFacts.

Import LipSync Main.

(** What one call of the audio processor can do. *)
Lemma processAudio_begin_cases (now : Z) (w : World) :
  let '(w1, o) := processAudio_begin now w in
  (o = [] /\ w1 = w) \/
  (exists f q,
     o = [CycleStart now (Some f)] /\
     Audio.queue (audio w) = Some (f :: q) /\
     Audio.queue (audio w1) = Some q /\
     isProcessing (processor w) = false /\
     (PROCESS_INTERVAL <= now - lastProcessTime (processor w))%Z /\
     processor w1 = {| lastProcessTime := now; isProcessing := true |} /\
     phonemeHistory w1 = phonemeHistory w /\ animation w1 = animation w /\
     appState w1 = appState w).
Proof.
  unfold processAudio_begin.
  destruct (Z.ltb_spec (now - lastProcessTime (processor w)) PROCESS_INTERVAL)
    as [Hlt | Hge]; [by left |].
  destruct (isProcessing (processor w)) eqn:Hp; [by left |].
  unfold Audio.queue, Audio.shiftQueue.
  destruct (Audio.windowQueue (audio w)) as [| | l] eqn:Hw; [by left | |].
  - destruct (Audio.audioBuffers (audio w)) as [| f q] eqn:Hq; [by left |].
    right. exists f, q. simpl. rewrite Hw. repeat split; done.
  - destruct l as [| f q]; [by left |].
    right. exists f, q. simpl. repeat split; done.
Qed.

(** Every event leaves the closure of the processor alone, starts one
    cycle, or ends the one in flight. *)
Lemma step_cases (e : event) (w : World) :
  let '(w1, o) := step e w in
  (o = [] /\ processor w1 = processor w) \/
  (exists now f,
     o = [CycleStart now f] /\
     isProcessing (processor w) = false /\
     (PROCESS_INTERVAL <= now - lastProcessTime (processor w))%Z /\
     processor w1 = {| lastProcessTime := now; isProcessing := true |}) \/
  (o = [CycleEnd] /\
   isProcessing (processor w) = true /\
   processor w1 = {| lastProcessTime := lastProcessTime (processor w);
                     isProcessing := false |}).
Proof.
  destruct e; simpl; try (by left).
  - unfold animate.
    destruct (isMicEnabled (appState w) && negb (isAudioTestMode (appState w)));
      [| by left].
    pose proof (processAudio_begin_cases now w) as H.
    destruct (processAudio_begin now w) as [w1 o].
    destruct H as [[-> ->] | (f & q & -> & _ & _ & Hp & Hge & Hpr & _)];
      [by left |].
    simpl. right. left. exists now, (Some f). by rewrite Hpr.
  - unfold processAudio_resume.
    destruct (isProcessing (processor w)) eqn:Hp; [| by left].
    destruct phonemes as [| e es]; [by right; right |].
    destruct (getPhonemeCategory r (Some e) (phonemeHistory w)).
    by right; right.
  - unfold onMicToggle. destruct enabled; [| by left].
    destruct (Audio.startMicrophone granted (audio w)). by left.
Qed.

Lemma run_throttled (es : list event) (w : World) :
  spaced (lastProcessTime (processor w)) (run es w).2 /\
  alternating (isProcessing (processor w)) (run es w).2.
Proof.
  revert w. induction es as [| e es IH]; intros w; [done |].
  simpl. pose proof (step_cases e w) as Hs.
  destruct (step e w) as [w1 o1]. specialize (IH w1).
  destruct (run es w1) as [w2 o2]. simpl in *.
  destruct Hs as [[-> Hp] | [(now & f & -> & Hb & Hge & Hp) | (-> & Hb & Hp)]];
    rewrite Hp in IH; simpl in *.
  - done.
  - destruct IH as [IH1 IH2]. by rewrite Hb.
  - destruct IH as [IH1 IH2]. by rewrite Hb.
Qed.


(** Cycles do start: with three frames captured, render frames at 1000,
    1016 and 1050 ms start a cycle at 1000 and at 1050, none at 1016. *)
Example three_frames_two_cycles :
  map (fun x => match x with CycleStart now _ => Some now | CycleEnd => None end)
      (run three_frames (world0 0)).2
  = [Some 1000%Z; None; Some 1050%Z].
Proof. vm_compute. reflexivity. Qed.

(** While the classification is outstanding no later frame starts a cycle. *)
Example stuck_classifier_one_cycle :
  starts (run stuck_classifier (world0 0)).2 = 1%nat.
Proof. vm_compute. reflexivity. Qed.

(** The earlier revision dequeues on every call, whatever the clock says. *)
Example earlier_revision_unthrottled :
  let '(a1, f1) := MainEarlier.processAudio_begin (audio talking) in
  let '(a2, f2) := MainEarlier.processAudio_begin (Audio.captureAll Audio.seventeen a1) in
  is_Some f1 /\ is_Some f2.
Proof. vm_compute. split; eexists; reflexivity. Qed.

(** *** Switching the microphone off *)

(** What [onMicToggle(false)] establishes: the shared queue reads empty, the
    capture callback no longer adds frames, the flag is off; the smoothing
    history and the animation state are the ones from before, and the next
    render frame advances the blink machine as ever. *)
Lemma mic_off_postcondition (granted : bool) (w : World) :
  let w' := onMicToggle false granted w in
  Audio.queue (audio w') = Some [] /\
  (forall input now, Audio.onaudioprocess input now (audio w') = audio w') /\
  isMicEnabled (appState w') = false /\
  phonemeHistory w' = phonemeHistory w /\
  animation w' = animation w /\
  (forall now r,
      animation (animate now r w').1
      = Animation.updateEyeSprite r
          (Animation.updateMouthSprite (phonemeCategory (appState w))
                                       (animation w)).1).
Proof. repeat split. Qed.

(** C3 (the code at the failing input): after one frame was classified as A
    the history is [["a"]]; switching the microphone off leaves the shared
    queue empty and the capture callback silent, but the history still is
    [["a"]], not the empty history that [resetPhonemeHistory] would leave. *)
Theorem mic_off_keeps_history :
  phonemeHistory talking = [VStr "a"] /\
  Audio.queue (audio (onMicToggle false true talking)) = Some [] /\
  Audio.scriptProcessor (audio (onMicToggle false true talking)) = false /\
  phonemeHistory (onMicToggle false true talking) = [VStr "a"] /\
  phonemeHistory (onMicToggle false true talking)
  <> resetPhonemeHistory (phonemeHistory talking).
Proof. vm_compute. repeat split; congruence. Qed.

(** The stale frame stays in [audioBuffers] and is shared again by the next
    [startMicrophone]. *)
Example mic_off_on_stale_frame :
  queueLength (onMicToggle true true (onMicToggle false true talking)) = 1%nat.
Proof. vm_compute. reflexivity. Qed.

(** The blink machine keeps running with the microphone off: 130 render
    frames later a blink has completed and a new deadline is in force. *)
Example mic_off_blink_goes_on :
  let w := (run (map (fun i => Frame (2000 + Z.of_nat i) (1 # 2)) (seq 0 130))
                (onMicToggle false true (world0 0))).1 in
  Animation.nextBlinkTime (animation w) = ((1 # 2) * 3 + 2)%Q /\
  Animation.showsOpenEye (animation w).
Proof. vm_compute. repeat split; reflexivity. Qed.

(** *** The capture buffer along a session *)

Lemma processAudio_begin_buffers (now : Z) (w : World) :
  (length (Audio.audioBuffers (audio (processAudio_begin now w).1))
   <= length (Audio.audioBuffers (audio w)))%nat.
Proof.
  unfold processAudio_begin.
  destruct (_ <? _)%Z; [done |].
  destruct (isProcessing (processor w)); [done |].
  unfold Audio.queue, Audio.shiftQueue.
  destruct (Audio.windowQueue (audio w)) as [| | l]; [done | |].
  - destruct (Audio.audioBuffers (audio w)) as [| f q] eqn:Hq; simpl;
      rewrite ?Hq, ?length_drop; simpl; lia.
  - destruct l; simpl; lia.
Qed.

Lemma step_buffer_bounded (e : event) (w : World) :
  (length (Audio.audioBuffers (audio w)) <= 15)%nat ->
  (length (Audio.audioBuffers (audio (step e w).1)) <= 15)%nat.
Proof.
  intros Hw. destruct e; simpl; try done.
  - unfold animate.
    destruct (isMicEnabled (appState w) && negb (isAudioTestMode (appState w)));
      [| done].
    pose proof (processAudio_begin_buffers now w) as H.
    destruct (processAudio_begin now w) as [w1 o]. simpl in *. lia.
  - unfold Audio.onaudioprocess.
    destruct (Audio.scriptProcessor (audio w)); [| done].
    destruct (Audio.audioContext (audio w)); [| done]. simpl.
    by apply AudioFacts.pushFrame_length.
  - unfold processAudio_resume.
    destruct (isProcessing (processor w)); [| done].
    destruct phonemes as [| e es]; [done |].
    by destruct (getPhonemeCategory r (Some e) (phonemeHistory w)).
  - unfold onMicToggle. destruct enabled; [| done].
    unfold Audio.startMicrophone.
    destruct (Audio.mediaStream (audio w)); [done |].
    destruct (negb granted); [done |].
    by destruct (Audio.audioContext (audio w)).
Qed.

(** With the driver taking frames off the shared queue in between, the
    buffer still never holds more than 15 frames. *)
Lemma run_buffer_bounded (es : list event) (w : World) :
  (length (Audio.audioBuffers (audio w)) <= 15)%nat ->
  (length (Audio.audioBuffers (audio (run es w).1)) <= 15)%nat.
Proof.
  revert w. induction es as [| e es IH]; intros w Hw; [done |]. simpl.
  pose proof (step_buffer_bounded e w Hw) as Hs.
  destruct (step e w) as [w1 o1]. specialize (IH w1 Hs).
  by destruct (run es w1).
Qed.

(** *** The stage stays initialised *)

Lemma step_mouth_keys (e : event) (w : World) :
  map fst (Animation.mouthSprites (animation (step e w).1))
  = map fst (Animation.mouthSprites (animation w)).
Proof.
  destruct e; simpl; try done.
  - unfold animate.
    assert (forall w1 : World, animation w1 = animation w ->
              map fst (Animation.mouthSprites
                         (Animation.updateEyeSprite r
                            (Animation.updateMouthSprite
                               (phonemeCategory (appState w1)) (animation w1)).1))
              = map fst (Animation.mouthSprites (animation w))) as Hgen.
    { intros w1 Hw1.
      destruct (BlinkFacts.frame_keeps r
                  (Animation.updateMouthSprite (phonemeCategory (appState w1))
                                               (animation w1)).1)
        as (_ & _ & -> & _).
      rewrite MouthFacts.updateMouthSprite_keys. by rewrite Hw1. }
    destruct (isMicEnabled (appState w) && negb (isAudioTestMode (appState w)));
      [| by apply Hgen].
    pose proof (processAudio_begin_cases now w) as H.
    destruct (processAudio_begin now w) as [w1 o].
    destruct H as [[-> ->] | (f & q & -> & _ & _ & _ & _ & _ & _ & Ha & _)];
      by apply Hgen.
  - unfold processAudio_resume.
    destruct (isProcessing (processor w)); [| done].
    destruct phonemes as [| e es]; [done |].
    by destruct (getPhonemeCategory r (Some e) (phonemeHistory w)).
  - unfold onMicToggle. destruct enabled; [| done].
    by destruct (Audio.startMicrophone granted (audio w)).
  - apply MouthFacts.updateMouthSprite_keys.
Qed.

(** Along every session the mouth sprites are the eight of [initAnimation]. *)
Lemma run_mouth_keys (es : list event) (r : Q) :
  map fst (Animation.mouthSprites (animation (run es (world0 r)).1)) = mouthTypes.
Proof.
  assert (forall w, map fst (Animation.mouthSprites (animation (run es w).1))
                    = map fst (Animation.mouthSprites (animation w))) as H.
  { induction es as [| e es IH]; intros w; [done |]. simpl.
    pose proof (step_mouth_keys e w) as Hs.
    destruct (step e w) as [w1 o1]. specialize (IH w1).
    destruct (run es w1) as [w2 o2]. simpl in *. congruence. }
  rewrite H. reflexivity.
Qed.

End MainFacts.

(** * Further properties *)

(** ** lipsync.js: diagnostics, simulation, engine, mock classifier *)

Module EngineFacts.

Import LipSync Engine.

Lemma last_drop_lt {A : Type} (l : list A) (n : nat) :
  (n < length l)%nat -> last (drop n l) = last l.
Proof.
  intros Hn. rewrite <- (take_drop n l) at 2. rewrite last_app.
  destruct (last (drop n l)) eqn:Hl; [done |].
  apply last_None in Hl. apply (f_equal length) in Hl.
  rewrite length_drop in Hl. simpl in Hl. lia.
Qed.

Lemma candidate_truthy (e : PhonemeEvent) : truthy (candidate e) = true.
Proof.
  unfold candidate. destruct (_ || _); [done |].
  unfold js_or. destruct (truthy (PHONEME_MAP_get _)) eqn:Ht; done.
Qed.

(** Whatever is emitted for a present event is truthy. *)
Lemma smooth_truthy (factor r : Q) (previous : option value) (e : PhonemeEvent) :
  truthy (smooth factor r previous (candidate e)) = true.
Proof.
  unfold smooth. destruct previous as [prev |]; [| apply candidate_truthy].
  destruct (truthy prev) eqn:Hp; simpl; [| apply candidate_truthy].
  destruct (negb _); [| apply candidate_truthy].
  destruct (shouldSwitch factor r); [apply candidate_truthy | done].
Qed.

(** X1: after a call with a present event the diagnostics report the
    category just emitted as the current phoneme, and their history is the
    tail of at most 5 entries of the smoothing history, ending in that
    category. *)
Theorem diagnostics_follow_emission
    (rhubarb : option engine) (r : Q) (e : PhonemeEvent) (h : list value) :
  let '(c, h') := getPhonemeCategory r (Some e) h in
  let d := getDiagnosticInfo rhubarb h' in
  diag_phoneme d = c /\
  (length (diag_history d) <= 5)%nat /\
  diag_history d `suffix_of` h' /\
  last (diag_history d) = Some c.
Proof.
  simpl.
  set (c := smooth SMOOTHING_FACTOR r (last h) (candidate e)).
  pose proof (LipSyncFacts.remember_last h c) as Hlast.
  assert (0 < length (remember h c))%nat as Hpos.
  { destruct (remember h c); [done | simpl; lia]. }
  split; [| split; [| split]].
  - assert (truthy c = true) as Htr by apply smooth_truthy.
    rewrite Hlast. simpl. unfold js_or. by rewrite Htr.
  - rewrite length_drop. lia.
  - apply suffix_drop.
  - rewrite last_drop_lt by lia. done.
Qed.

(** With an empty history the diagnostics fall back to ["idle"]. *)
Example diagnostics_of_empty_history :
  diag_phoneme (getDiagnosticInfo (Some MockRhubarb) []) = VStr "idle".
Proof. reflexivity. Qed.

(** The loop of [simulatePhonemeSequence] in closed form. *)
Lemma simulate_from (ps : list string) (acc : list PhonemeEvent) :
  fold_left
    (fun result p =>
       result ++ [{| phoneme := Some p;
                     start := inject_Z (Z.of_nat (length result)) * 0.1;
                     duration := 0.1 |}])
    ps acc
  = acc ++ imap (fun i p => {| phoneme := Some p;
                               start := inject_Z (Z.of_nat (length acc + i)) * 0.1;
                               duration := 0.1 |}) ps.
Proof.
  revert acc. induction ps as [| p ps IH]; intros acc; simpl.
  - by rewrite app_nil_r.
  - rewrite IH, <- app_assoc. simpl. rewrite Nat.add_0_r. do 2 f_equal.
    apply imap_ext. intros i x _. simpl. rewrite length_app. simpl.
    do 3 f_equal. lia.
Qed.

(** X2: [simulatePhonemeSequence] makes one event per label, in order; the
    event at index [i] carries the label, starts at [i * 0.1] and lasts
    [0.1], so each event starts where the one before it ends. *)
Theorem simulated_sequence (ps : list string) :
  length (simulatePhonemeSequence ps) = length ps /\
  map phoneme (simulatePhonemeSequence ps) = map Some ps /\
  (forall i e, simulatePhonemeSequence ps !! i = Some e ->
     start e = (inject_Z (Z.of_nat i) * 0.1)%Q /\ duration e = 0.1%Q) /\
  (forall i e e', simulatePhonemeSequence ps !! i = Some e ->
     simulatePhonemeSequence ps !! S i = Some e' ->
     (start e' == start e + duration e)%Q).
Proof.
  unfold simulatePhonemeSequence. rewrite simulate_from. simpl.
  assert (forall i e,
            imap (fun i p => {| phoneme := Some p;
                                start := inject_Z (Z.of_nat i) * 0.1;
                                duration := 0.1 |}) ps !! i = Some e ->
            start e = (inject_Z (Z.of_nat i) * 0.1)%Q /\ duration e = 0.1%Q)
    as Hat.
  { intros i e He. apply list_lookup_imap_Some in He as (p & _ & ->). done. }
  split; [by rewrite length_imap |]. split; [| split].
  - apply list_eq. intros i. rewrite !list_lookup_fmap, list_lookup_imap.
    by destruct (ps !! i).
  - exact Hat.
  - intros i e e' He He'.
    destruct (Hat _ _ He) as [-> ->]. destruct (Hat _ _ He') as [-> _].
    rewrite Nat2Z.inj_succ, <- Z.add_1_r, inject_Z_plus.
    change (inject_Z 1) with 1%Q. lra.
Qed.

(** X5: however the fetch of the WASM binary ends, [loadRhubarbWasm] yields
    [null]; [initLipSync] installs the mock, reports success without the
    [usingMock] flag, and the diagnostics say that the mock is in use. *)
Theorem official_engine_never_loaded (f : FetchOutcome) (h : list value) :
  loadRhubarbWasm f = None /\
  (initLipSync f).1 = Some MockRhubarb /\
  (initLipSync f).2 = {| success := true; usingMock := None |} /\
  isUsingMock (getDiagnosticInfo (initLipSync f).1 h) = true.
Proof. by destruct f. Qed.

(** *** The mock classifier *)

(** Membership in a list that is written out. *)
Ltac member := repeat (apply elem_of_cons; first [left; reflexivity | right]).

Lemma pick_vowels (r : Q) :
  pick vowels r = None \/
  exists l, pick vowels r = Some l /\ l ∈ vowels.
Proof.
  unfold pick. destruct (_ <? 0)%Z; [by left |].
  destruct (vowels !! _) as [l |] eqn:Hl; [| by left].
  right. exists l. split; [done |]. by eapply list_elem_of_lookup_2.
Qed.

Lemma pick_vowels_in_range (r : Q) :
  (0 <= r < 1)%Q -> is_Some (pick vowels r).
Proof.
  intros [H0 H1]. unfold pick. simpl length.
  change (inject_Z (Z.of_nat 4)) with 4%Q.
  assert (0 <= Qfloor (r * 4))%Z as Hlo.
  { change 0%Z with (Qfloor 0). apply Qfloor_resp_le. lra. }
  assert (Qfloor (r * 4) < 4)%Z as Hhi.
  { rewrite Zlt_Qlt. pose proof (Qfloor_le (r * 4)).
    change (inject_Z 4) with 4%Q. lra. }
  destruct (Z.ltb_spec (Qfloor (r * 4)) 0); [lia |].
  apply lookup_lt_is_Some. change (length vowels) with 4%nat. lia.
Qed.

Lemma detect_labels (s : Spectrum) (r : Q) :
  detectPhonemeCategory s r = None \/
  exists l, detectPhonemeCategory s r = Some l /\ l ∈ mockLabels.
Proof.
  unfold detectPhonemeCategory, mockLabels.
  destruct (PrimFloat.ltb (energy s) _);
    [right; eexists; split; [done | member] |].
  destruct (PrimFloat.ltb _ (lowFreqRatio s)).
  { destruct (pick_vowels r) as [-> | (l & -> & Hl)]; [by left |].
    right. exists l. split; [done |]. unfold vowels in Hl.
    repeat (apply elem_of_cons in Hl as [-> | Hl]; [member |]).
    by apply elem_of_nil in Hl. }
  destruct (PrimFloat.ltb _ (highFreqRatio s)); destruct (Animation.Qgtb r _);
    right; eexists; (split; [done | member]).
Qed.

Lemma mock_label_candidate (e : PhonemeEvent) (l : string) :
  phoneme e = Some l -> l ∈ mockLabels ->
  exists c, candidate e = VStr c /\ c ∈ mockCategories.
Proof.
  intros He Hl. unfold candidate, phonemeChar. rewrite He.
  unfold mockLabels in Hl. unfold mockCategories.
  repeat (apply elem_of_cons in Hl as [-> | Hl];
          [vm_compute; eexists; split; [reflexivity | member] |]).
  by apply elem_of_nil in Hl.
Qed.

(** X3: for every spectrum, NaN entries included, and every draw, an event
    that carries the label chosen by [detectPhonemeCategory] has a candidate
    category among idle, a, e, o, u, f and m: the mock never reaches the
    ['closed'] default of the table nor an inherited member. For a draw in
    [0, 1) the label is one of rest, A, E, O, U, F, S, M and N. *)
Theorem mock_labels_resolve (s : Spectrum) (r : Q) (e : PhonemeEvent) :
  phoneme e = detectPhonemeCategory s r ->
  (exists c, candidate e = VStr c /\ c ∈ mockCategories) /\
  ((0 <= r < 1)%Q -> exists l, phoneme e = Some l /\ l ∈ mockLabels).
Proof.
  intros He. split.
  - destruct (detect_labels s r) as [Hn | (l & Hl & Hin)].
    + exists "idle". unfold candidate, phonemeChar. rewrite He, Hn.
      split; [reflexivity | unfold mockCategories; member].
    + apply (mock_label_candidate e l); [congruence | done].
  - intros Hr. rewrite He.
    destruct (detect_labels s r) as [Hn | Hl]; [| done].
    exfalso. unfold detectPhonemeCategory in Hn.
    destruct (PrimFloat.ltb (energy s) _); [done |].
    destruct (PrimFloat.ltb _ (lowFreqRatio s)).
    { destruct (pick_vowels_in_range r Hr) as [l Hl]. congruence. }
    by destruct (PrimFloat.ltb _ (highFreqRatio s)).
Qed.

Lemma mock_labels_resolve_witness :
  phoneme (mkEvent "N")
  = detectPhonemeCategory (analyzeFrequency [0.5; 0.5]%float) (1 # 4) /\
  candidate (mkEvent "N") = VStr "m".
Proof.
  assert (phoneme (mkEvent "N")
          = detectPhonemeCategory (analyzeFrequency [0.5; 0.5]%float) (1 # 4))
    as He by (vm_compute; reflexivity).
  split; [exact He |].
  destruct (mock_labels_resolve _ _ _ He) as [_ _]. vm_compute. reflexivity.
Defined.

(** X4: an empty buffer is not heard as silence. Its energy is [0 / 0], a
    NaN, which fails the silence test and both ratio tests, so the one event
    of [analyzeAudio] carries a closed-mouth consonant, M or N by the draw,
    for every sample rate. *)
Theorem empty_buffer_not_silent (sampleRate : float) (r : Q) :
  map raw_phoneme (analyzeAudio [] sampleRate r)
  = [Some (if Animation.Qgtb r 0.5 then "M" else "N")].
Proof.
  assert (analyzeFrequency [] = {| energy := nan; lowFreqRatio := nan;
                                   highFreqRatio := nan |}) as Hs
    by (vm_compute; reflexivity).
  unfold analyzeAudio. rewrite Hs. reflexivity.
Qed.

(** A frame of 4096 zero samples, the size the capture delivers, is heard as
    silence and resolved to ["idle"]. *)
Example silent_frame_rests :
  map raw_phoneme (analyzeAudio (repeat 0%float 4096) 16000%float (1 # 2))
  = [Some "rest"] /\
  candidate (mkEvent "rest") = VStr "idle".
Proof. split; vm_compute; reflexivity. Qed.

End EngineFacts.

(** ** audio.js: level meter and microphone life cycle *)

Module MeterFacts.

Import Audio Meter.

Lemma sum_bytes (dataArray : list Z) (acc : Z) :
  bytes dataArray ->
  (acc <= fold_left Z.add dataArray acc
       <= acc + 255 * Z.of_nat (length dataArray))%Z.
Proof.
  intros Hb. revert acc. induction Hb as [| b l Hb _ IH]; intros acc; simpl.
  - lia.
  - specialize (IH (acc + b)%Z). lia.
Qed.

(** The integer part of [average / 255 * 100] as an integer quotient. *)
Lemma level_floor (dataArray : list Z) :
  dataArray <> [] ->
  Qfloor (inject_Z (fold_left Z.add dataArray 0%Z)
          / inject_Z (Z.of_nat (length dataArray)) / 255 * 100)%Q
  = ((fold_left Z.add dataArray 0 * 100)
     / (Z.of_nat (length dataArray) * 255))%Z.
Proof.
  intros Hne. rewrite Zdiv_Qdiv. apply Qfloor_comp.
  assert (0 < Z.of_nat (length dataArray))%Z as Hlen.
  { destruct dataArray; [done | simpl; lia]. }
  rewrite !inject_Z_mult.
  change (inject_Z 100) with 100%Q. change (inject_Z 255) with 255%Q.
  assert (~ inject_Z (Z.of_nat (length dataArray)) == 0)%Q as Hq.
  { change 0%Q with (inject_Z 0). rewrite inject_Z_injective. lia. }
  field. exact Hq.
Qed.

(** X6: [getAudioLevel] is 0 while the analyser is missing or the capture is
    not running; otherwise, for a non-empty array of bytes, it is the
    integer part of [average / 255 * 100], which the cap
    [Math.min(100, ...)] never has to cut; in every case it is a whole
    number from 0 to 100. *)
Theorem audio_level_bounds (dataArray : list Z) (a : AudioState) :
  bytes dataArray -> dataArray <> [] ->
  (analyser a = false \/ isAudioRunning a = false ->
   getAudioLevel dataArray a = 0%Z) /\
  (analyser a = true -> isAudioRunning a = true ->
   getAudioLevel dataArray a
   = Qfloor (inject_Z (fold_left Z.add dataArray 0%Z)
             / inject_Z (Z.of_nat (length dataArray)) / 255 * 100)%Q) /\
  (0 <= getAudioLevel dataArray a <= 100)%Z.
Proof.
  intros Hb Hne.
  assert (0 < Z.of_nat (length dataArray))%Z as Hlen.
  { destruct dataArray; [done | simpl; lia]. }
  pose proof (sum_bytes dataArray 0 Hb) as Hsum.
  pose proof (level_floor dataArray Hne) as Hfl.
  assert (0 <= (fold_left Z.add dataArray 0 * 100)
               / (Z.of_nat (length dataArray) * 255) <= 100)%Z as Hq.
  { split.
    - apply Z.div_pos; lia.
    - apply Z.div_le_upper_bound; lia. }
  unfold getAudioLevel.
  split; [| split].
  - intros [-> | ->]; [done | by rewrite orb_true_r].
  - intros -> ->. cbn [negb orb]. rewrite Hfl. lia.
  - destruct (negb (analyser a) || negb (isAudioRunning a)); [lia |].
    cbv zeta. rewrite Hfl. lia.
Qed.

Lemma audio_level_bounds_witness :
  bytes [255; 0; 128; 64]%Z /\ [255; 0; 128; 64]%Z <> [] /\
  getAudioLevel [255; 0; 128; 64]%Z running = 43%Z /\
  getAudioLevel [255; 0; 128; 64]%Z initial = 0%Z.
Proof.
  assert (bytes [255; 0; 128; 64]%Z) as Hb
    by (repeat constructor; lia).
  assert ([255; 0; 128; 64]%Z <> []) as Hne by discriminate.
  split; [exact Hb |]. split; [exact Hne |].
  destruct (audio_level_bounds [255; 0; 128; 64]%Z initial Hb Hne)
    as (Hoff & _ & _).
  split; [reflexivity | apply Hoff; left; reflexivity].
Defined.

(** X7: when no audio context exists, a first [startMicrophone] with the
    permission granted fails, but it has stored the media stream; every
    later call then reports success, whatever the permission, without
    changing anything: nothing runs, no node exists, the shared queue is as
    before and the capture callback adds no frame. *)
Theorem start_without_context (a : AudioState) :
  audioContext a = None -> mediaStream a = false ->
  let a1 := (startMicrophone true a).1 in
  (startMicrophone true a).2 = false /\
  (forall granted, startMicrophone granted a1 = (a1, true)) /\
  isAudioRunning a1 = isAudioRunning a /\
  scriptProcessor a1 = scriptProcessor a /\
  windowQueue a1 = windowQueue a /\
  (forall input now, onaudioprocess input now a1 = a1).
Proof.
  intros Hctx Hms. unfold startMicrophone. rewrite Hms, Hctx. simpl.
  repeat split; try done.
  intros input now. unfold onaudioprocess. simpl.
  by destruct (scriptProcessor a).
Qed.

Lemma start_without_context_witness :
  audioContext (initAudio false initial).1 = None /\
  mediaStream (initAudio false initial).1 = false /\
  (startMicrophone true (initAudio false initial).1).2 = false /\
  (startMicrophone false (startMicrophone true (initAudio false initial).1).1).2 = true /\
  isAudioRunning (startMicrophone true (initAudio false initial).1).1 = false.
Proof.
  destruct (start_without_context (initAudio false initial).1 eq_refl eq_refl)
    as (Hfail & Hthen & Hrun & _).
  split; [reflexivity |]. split; [reflexivity |]. split; [exact Hfail |].
  split; [by rewrite Hthen | exact Hrun].
Defined.

End MeterFacts.

(** ** main.js: what a session keeps, delivers and shows *)

Module SessionFacts.

Import LipSync Main Session.

(** What the audio processor does to the world when it starts a cycle. *)
Lemma processAudio_begin_effect (now : Z) (w : World) :
  let '(w1, o) := processAudio_begin now w in
  (o = [] /\ w1 = w) \/
  (exists f q,
     o = [CycleStart now (Some f)] /\
     Audio.queue (audio w) = Some (f :: q) /\
     (audio w1
      = match Audio.windowQueue (audio w) with
        | Audio.QShared => Audio.set_audioBuffers q (audio w)
        | _ => Audio.set_windowQueue (Audio.QOwn q) (audio w)
        end) /\
     phonemeHistory w1 = phonemeHistory w /\ animation w1 = animation w /\
     appState w1 = appState w /\
     processor w1 = {| lastProcessTime := now; isProcessing := true |}).
Proof.
  unfold processAudio_begin.
  destruct (_ <? _)%Z; [by left |].
  destruct (isProcessing (processor w)); [by left |].
  unfold Audio.queue, Audio.shiftQueue.
  destruct (Audio.windowQueue (audio w)) as [| | l] eqn:Hw; [by left | |].
  - destruct (Audio.audioBuffers (audio w)) as [| f q] eqn:Hq; [by left |].
    right. exists f, q. by repeat split.
  - destruct l as [| f q]; [by left |].
    right. exists f, q. by repeat split.
Qed.

(** The capture callback touches [audioBuffers] alone. *)
Lemma onaudioprocess_fields (input : list Q) (now : Z) (a : Audio.AudioState) :
  let a' := Audio.onaudioprocess input now a in
  Audio.audioContext a' = Audio.audioContext a /\
  Audio.mediaStream a' = Audio.mediaStream a /\
  Audio.scriptProcessor a' = Audio.scriptProcessor a /\
  Audio.analyser a' = Audio.analyser a /\
  Audio.isAudioRunning a' = Audio.isAudioRunning a /\
  Audio.windowQueue a' = Audio.windowQueue a.
Proof.
  unfold Audio.onaudioprocess.
  destruct (Audio.scriptProcessor a) eqn:Hs; [| done].
  destruct (Audio.audioContext a) eqn:Hc; [| done].
  simpl. by rewrite Hs, Hc.
Qed.

Lemma step_consistent (e : event) (w : World) :
  consistent w -> consistent (step e w).1.
Proof.
  intros (Hctx & Hms & Hsp & Han & Hmic & Hq). destruct e; simpl; try done.
  - (* Frame *)
    unfold animate.
    destruct (isMicEnabled (appState w) && negb (isAudioTestMode (appState w)));
      [| done].
    pose proof (processAudio_begin_effect now w) as H.
    destruct (processAudio_begin now w) as [w1 o].
    destruct H as [[-> ->] | (f & q & -> & Hqueue & Ha & _ & _ & Hst & _)];
      [done |].
    unfold consistent. simpl. rewrite Ha, Hst.
    unfold Audio.queue in Hqueue.
    destruct (Audio.windowQueue (audio w)) as [| | l] eqn:Hw; [done | |].
    + simpl. by rewrite Hw.
    + destruct Hq as [-> _]. done.
  - (* AudioProcess *)
    unfold consistent. simpl.
    destruct (onaudioprocess_fields input now (audio w))
      as (-> & -> & -> & -> & -> & ->).
    by repeat (split; [done |]).
  - (* Classified *)
    unfold processAudio_resume.
    destruct (isProcessing (processor w)); [| done].
    destruct phonemes as [| e es]; [done |].
    by destruct (getPhonemeCategory r (Some e) (phonemeHistory w)).
  - (* MicToggle *)
    unfold onMicToggle. destruct enabled; [| by repeat (split; [done |])].
    unfold Audio.startMicrophone.
    destruct (Audio.mediaStream (audio w)) eqn:Hm.
    { unfold consistent. simpl.
      repeat (split; [done || congruence |]). done. }
    destruct granted; simpl.
    + destruct Hctx as [rate Hrate]. rewrite Hrate.
      unfold consistent. simpl. by repeat (split; [done |]).
    + unfold consistent. simpl.
      repeat (split; [done || congruence |]). done.
Qed.

Lemma run_consistent (es : list event) (w : World) :
  consistent w -> consistent (run es w).1.
Proof.
  revert w. induction es as [| e es IH]; intros w Hw; [done |]. simpl.
  pose proof (step_consistent e w Hw) as Hs.
  destruct (step e w) as [w1 o1]. specialize (IH w1 Hs).
  by destruct (run es w1).
Qed.

Lemma world0_consistent (r : Q) : consistent (world0 r).
Proof. unfold consistent. simpl. by repeat (split; [done |]). Qed.

(** X8: along every session the capture flags agree: the media stream, the
    script processor, the analyser, [isAudioRunning] and the flag
    [isMicEnabled] of the UI are all on or all off; the shared queue is the
    capture array exactly while the capture runs, and a queue of its own is
    empty. *)
Theorem capture_flags_agree (es : list event) (r : Q) :
  let w := (run es (world0 r)).1 in
  Audio.mediaStream (audio w) = Audio.isAudioRunning (audio w) /\
  Audio.scriptProcessor (audio w) = Audio.isAudioRunning (audio w) /\
  Audio.analyser (audio w) = Audio.isAudioRunning (audio w) /\
  isMicEnabled (appState w) = Meter.isMicrophoneRunning (audio w) /\
  (Audio.isAudioRunning (audio w) = true <->
   Audio.windowQueue (audio w) = Audio.QShared) /\
  (forall l, Audio.windowQueue (audio w) = Audio.QOwn l -> l = []).
Proof.
  destruct (run_consistent es (world0 r) (world0_consistent r))
    as (_ & Hms & Hsp & Han & Hmic & Hq).
  simpl. repeat split; try done.
  - intros Hrun. rewrite Hrun in Hq.
    destruct (Audio.windowQueue _); [done | done | by destruct Hq].
  - intros Hw. by rewrite Hw in Hq.
  - intros l Hw. rewrite Hw in Hq. by destruct Hq.
Qed.

(** One event: what is delivered, followed by what stays buffered, was
    buffered before or is pushed by the event, in that order. *)
Lemma step_delivers_in_order (e : event) (w : World) :
  consistent w ->
  delivered (step e w).2 ++ Audio.audioBuffers (audio (step e w).1)
  `sublist_of` Audio.audioBuffers (audio w) ++ pushedBy e w.
Proof.
  intros (_ & _ & _ & _ & _ & Hq).
  destruct e; simpl; rewrite ?app_nil_r; try done.
  - unfold animate.
    destruct (isMicEnabled (appState w) && negb (isAudioTestMode (appState w)));
      [| done].
    pose proof (processAudio_begin_effect now w) as H.
    destruct (processAudio_begin now w) as [w1 o].
    destruct H as [[-> ->] | (f & q & -> & Hqueue & Ha & _)]; [done |].
    simpl. rewrite Ha. unfold Audio.queue in Hqueue.
    destruct (Audio.windowQueue (audio w)) as [| | l] eqn:Hw; [done | |].
    + injection Hqueue as ->. done.
    + destruct Hq as [-> _]. done.
  - unfold Audio.onaudioprocess.
    destruct (Audio.scriptProcessor (audio w)); [| by rewrite app_nil_r].
    destruct (Audio.audioContext (audio w)); [| by rewrite app_nil_r].
    simpl. unfold Audio.pushFrame. destruct (decide _); [| done].
    apply sublist_drop.
  - unfold processAudio_resume.
    destruct (isProcessing (processor w)); [| done].
    destruct phonemes as [| e es]; [done |].
    by destruct (getPhonemeCategory r (Some e) (phonemeHistory w)).
  - unfold onMicToggle. destruct enabled; [| done].
    unfold Audio.startMicrophone.
    destruct (Audio.mediaStream (audio w)); [done |].
    destruct (negb granted); [done |].
    by destruct (Audio.audioContext (audio w)).
Qed.

Lemma delivered_app (o1 o2 : list obs) :
  delivered (o1 ++ o2) = delivered o1 ++ delivered o2.
Proof. unfold delivered. by rewrite flat_map_app. Qed.

Lemma run_delivers_in_order (es : list event) (w : World) :
  consistent w ->
  delivered (run es w).2
  `sublist_of` Audio.audioBuffers (audio w) ++ captured es w.
Proof.
  revert w. induction es as [| e es IH]; intros w Hw; simpl.
  - apply sublist_nil_l.
  - pose proof (step_delivers_in_order e w Hw) as Hs.
    pose proof (step_consistent e w Hw) as Hc.
    destruct (step e w) as [w1 o1]. simpl in *. specialize (IH w1 Hc).
    destruct (run es w1) as [w2 o2]. simpl in *.
    rewrite delivered_app.
    transitivity (delivered o1 ++ Audio.audioBuffers (audio w1) ++ captured es w1).
    + apply sublist_app; [done | exact IH].
    + rewrite !app_assoc. by apply sublist_app.
Qed.

(** X9: the frames handed to the classifier during a session are frames the
    capture callback pushed, in the order pushed, none of them handed over
    twice: the delivered frames are a sublist of the captured ones, also
    across microphone restarts and buffer overflow. *)
Theorem frames_delivered_in_capture_order (es : list event) (r : Q) :
  delivered (run es (world0 r)).2 `sublist_of` captured es (world0 r).
Proof.
  apply (run_delivers_in_order es (world0 r)), world0_consistent.
Qed.

(** In the session of three captured frames two are delivered, the oldest
    first. *)
Example three_frames_delivery :
  map Audio.timestamp (captured three_frames (world0 0)) = [990; 995; 999]%Z /\
  map Audio.timestamp (delivered (run three_frames (world0 0)).2) = [990; 995]%Z.
Proof. split; vm_compute; reflexivity. Qed.

(** *** When a render frame starts a cycle *)

Lemma processAudio_begin_decides (now : Z) (w : World) :
  (processAudio_begin now w).2 <> [] <->
  (PROCESS_INTERVAL <= now - lastProcessTime (processor w))%Z /\
  isProcessing (processor w) = false /\
  (0 < queueLength w)%nat.
Proof.
  unfold processAudio_begin, queueLength.
  destruct (Z.ltb_spec (now - lastProcessTime (processor w)) PROCESS_INTERVAL).
  { simpl. split; [done | lia]. }
  destruct (isProcessing (processor w)).
  { simpl. split; [done | by intros (_ & ? & _)]. }
  destruct (Audio.queue (audio w)) as [[| f q] |]; simpl.
  - split; [done | lia].
  - destruct (Audio.shiftQueue (audio w)). simpl. split; [| done].
    intros _. repeat split; [done | lia].
  - split; [done | lia].
Qed.

(** X10: a render frame starts a classification cycle exactly when the
    microphone flag is on, the audio test mode is off, at least 50 ms have
    passed since the last start, no classification is in flight and the
    shared queue holds a frame; the cycle then takes the oldest frame of the
    queue and records the clock reading as the last start. *)
Theorem cycle_start_condition (now : Z) (r : Q) (w : World) :
  (starts (animate now r w).2 = 1%nat <->
   isMicEnabled (appState w) = true /\
   isAudioTestMode (appState w) = false /\
   (PROCESS_INTERVAL <= now - lastProcessTime (processor w))%Z /\
   isProcessing (processor w) = false /\
   (0 < queueLength w)%nat) /\
  (starts (animate now r w).2 = 1%nat ->
   exists f q,
     Audio.queue (audio w) = Some (f :: q) /\
     (animate now r w).2 = [CycleStart now (Some f)] /\
     Audio.queue (audio (animate now r w).1) = Some q /\
     processor (animate now r w).1
     = {| lastProcessTime := now; isProcessing := true |}).
Proof.
  pose proof (processAudio_begin_decides now w) as Hdec.
  pose proof (MainFacts.processAudio_begin_cases now w) as Hcases.
  unfold animate.
  destruct (isMicEnabled (appState w)); simpl;
    [| split; [split; [done | by intros [? _]] | done]].
  destruct (isAudioTestMode (appState w)); simpl;
    [split; [split; [done | by intros (_ & ? & _)] | done] |].
  destruct (processAudio_begin now w) as [w1 o]. simpl in *.
  destruct Hcases as [[-> ->] | (f & q & -> & Hq & Hq1 & _ & _ & Hp & _)].
  - split; [| done]. split; [done |].
    intros (_ & _ & H). by apply Hdec in H.
  - split.
    + split; [| done]. intros _. split; [done |]. split; [done |].
      by apply Hdec.
    + intros _. exists f, q. by rewrite Hp.
Qed.

(** *** A classification that never arrives *)

Lemma step_while_in_flight (e : event) (w : World) :
  unanswered e = true -> isProcessing (processor w) = true ->
  (step e w).2 = [] /\
  processor (step e w).1 = processor w /\
  phonemeHistory (step e w).1 = phonemeHistory w /\
  phonemeCategory (appState (step e w).1) = phonemeCategory (appState w).
Proof.
  intros He Hp. destruct e; simpl; try done.
  - unfold animate, processAudio_begin. rewrite Hp.
    destruct (_ && _); [| done]. by destruct (_ <? _)%Z.
  - unfold onMicToggle. destruct enabled; [| done].
    by destruct (Audio.startMicrophone granted (audio w)).
Qed.

(** X11: there is no timeout on a classification. While the awaited result
    does not arrive, no event starts another cycle: the flag [isProcessing]
    stays set, and the smoothing history and the mouth category stay as they
    are, whatever the clock readings and however many frames are queued. *)
Theorem stuck_classifier_blocks (es : list event) (w : World) :
  forallb unanswered es = true ->
  isProcessing (processor w) = true ->
  starts (run es w).2 = 0%nat /\
  isProcessing (processor (run es w).1) = true /\
  phonemeHistory (run es w).1 = phonemeHistory w /\
  phonemeCategory (appState (run es w).1) = phonemeCategory (appState w).
Proof.
  revert w. induction es as [| e es IH]; intros w Hes Hp; [done |].
  simpl in Hes. apply andb_prop in Hes as [He Hes]. simpl.
  destruct (step_while_in_flight e w He Hp) as (Ho & Hpr & Hh & Hc).
  destruct (step e w) as [w1 o1]. simpl in *. subst o1.
  specialize (IH w1 Hes). rewrite Hpr, Hh, Hc in IH. specialize (IH Hp).
  by destruct (run es w1).
Qed.

Lemma stuck_classifier_blocks_witness :
  forallb unanswered [Frame 1100 (1 # 2); AudioProcess [] 1150;
                      Frame 1200 (1 # 2)] = true /\
  isProcessing
    (processor (run [MicToggle true true; AudioProcess [] 990;
                     AudioProcess [] 995; Frame 1000 (1 # 2)] (world0 0)).1)
  = true /\
  starts (run [Frame 1100 (1 # 2); AudioProcess [] 1150; Frame 1200 (1 # 2)]
              (run [MicToggle true true; AudioProcess [] 990;
                    AudioProcess [] 995; Frame 1000 (1 # 2)] (world0 0)).1).2
  = 0%nat.
Proof.
  split; [reflexivity |]. split; [reflexivity |].
  apply (stuck_classifier_blocks
           [Frame 1100 (1 # 2); AudioProcess [] 1150; Frame 1200 (1 # 2)]
           (run [MicToggle true true; AudioProcess [] 990;
                 AudioProcess [] 995; Frame 1000 (1 # 2)] (world0 0)).1);
    reflexivity.
Defined.

(** *** What the mouth shows *)

Import Animation Assets.

(** The audio processor does not touch the animation: a render frame
    applies the mouth category of before the frame, then the blink. *)
Lemma animate_animation (now : Z) (r : Q) (w : World) :
  animation (animate now r w).1
  = updateEyeSprite r
      (updateMouthSprite (phonemeCategory (appState w)) (animation w)).1 /\
  appState (animate now r w).1 = appState w /\
  phonemeHistory (animate now r w).1 = phonemeHistory w.
Proof.
  unfold animate.
  destruct (isMicEnabled (appState w) && negb (isAudioTestMode (appState w)));
    [| done].
  pose proof (MainFacts.processAudio_begin_cases now w) as H.
  destruct (processAudio_begin now w) as [w1 o].
  destruct H as [[-> ->] | (f & q & -> & _ & _ & _ & _ & _ & Hh & Ha & Hs)];
    [done |].
  simpl. by rewrite Ha, Hs, Hh.
Qed.

Lemma only_key_passes (X : string) :
  X ∈ mouthTypes -> List.filter (fun k => String.eqb k X) mouthTypes = [X].
Proof.
  intros HX. unfold mouthTypes in *.
  repeat (apply elem_of_cons in HX as [-> | HX]; [reflexivity |]).
  by apply elem_of_nil in HX.
Qed.

Lemma visible_after_pass (X : string) (m : SpriteMap) :
  map fst (List.filter (fun kd => visible kd.2)
             (map (fun kd => (kd.1, set_visible (String.eqb kd.1 X) kd.2)) m))
  = List.filter (fun k => String.eqb k X) (map fst m).
Proof.
  induction m as [| [k d] m IH]; [done |]. simpl.
  destruct (String.eqb k X); simpl; by rewrite IH.
Qed.

(** A call with one of the eight mouth types on an initialised stage. *)
Lemma updateMouthSprite_to (X : string) (st : AnimationState) :
  map fst (mouthSprites st) = mouthTypes -> X ∈ mouthTypes ->
  let st1 := (updateMouthSprite (VStr X) st).1 in
  currentMouthType st1 = X /\
  map fst (mouthSprites st1) = mouthTypes /\
  (currentMouthType st = X -> st1 = st) /\
  (currentMouthType st <> X -> visibleMouths st1 = [X]).
Proof.
  intros Hkeys HX.
  assert (truthy (VStr X) = true) as Htr.
  { apply LipSyncFacts.viseme_truthy. by exists X. }
  destruct (MouthFacts.Map_get_key_Some X (mouthSprites st)) as [d Hget];
    [by rewrite Hkeys |].
  destruct (decide (currentMouthType st = X)) as [Hcur | Hcur].
  - rewrite (MouthFacts.updateMouthSprite_same X st Hcur). simpl.
    repeat split; done.
  - destruct (MouthFacts.updateMouthSprite_change X st d Htr Hcur Hget)
      as (st1 & -> & Hcur1 & Hm1). simpl.
    split; [done |]. split; [| split; [done |]].
    + rewrite Hm1, map_map. simpl. by rewrite <- Hkeys.
    + intros _. unfold visibleMouths. rewrite Hm1, visible_after_pass, Hkeys.
      by apply only_key_passes.
Qed.

Lemma updateEyeSprite_mouth (r : Q) (st : AnimationState) :
  currentMouthType (updateEyeSprite r st) = currentMouthType st /\
  mouthSprites (updateEyeSprite r st) = mouthSprites st /\
  visibleMouths (updateEyeSprite r st) = visibleMouths st.
Proof.
  destruct (BlinkFacts.frame_keeps r st) as (_ & _ & Hm & Hc & _).
  unfold visibleMouths. by rewrite Hm, Hc.
Qed.

(** X12: a mouth chosen by hand through [onMouthChange] lasts until the next
    render frame only. The frame applies [appState.phonemeCategory], which
    the manual change did not set, so the mouth is back on that category and
    its sprite alone is visible. A mouth set through
    [window.testMouthAnimation] does survive the frame. *)
Theorem manual_mouth_reverted (now : Z) (r : Q) (w : World) (x c : string) :
  map fst (mouthSprites (animation w)) = mouthTypes ->
  phonemeCategory (appState w) = VStr c ->
  c ∈ mouthTypes -> x ∈ mouthTypes -> x <> c ->
  currentMouthType (animation (onMouthChange (VStr x) w)) = x /\
  currentMouthType (animation (animate now r (onMouthChange (VStr x) w)).1) = c /\
  visibleMouths (animation (animate now r (onMouthChange (VStr x) w)).1) = [c] /\
  currentMouthType (animation (animate now r (testMouthAnimation (VStr x) w)).1) = x.
Proof.
  intros Hkeys Hcat Hc Hx Hne.
  destruct (updateMouthSprite_to x (animation w) Hkeys Hx) as (Hcur & Hkeys1 & _).
  split; [exact Hcur |].
  destruct (animate_animation now r (onMouthChange (VStr x) w)) as (-> & _ & _).
  destruct (animate_animation now r (testMouthAnimation (VStr x) w)) as (-> & _ & _).
  simpl. rewrite Hcat.
  set (st1 := (updateMouthSprite (VStr x) (animation w)).1) in *.
  destruct (updateMouthSprite_to c st1 Hkeys1 Hc) as (Hcur2 & _ & _ & Hvis).
  destruct (updateEyeSprite_mouth r (updateMouthSprite (VStr c) st1).1)
    as (-> & _ & ->).
  destruct (updateEyeSprite_mouth r st1) as (-> & _ & _).
  split; [exact Hcur2 |]. split; [apply Hvis; congruence | exact Hcur].
Qed.

Lemma manual_mouth_reverted_witness :
  map fst (mouthSprites (animation (world0 0))) = mouthTypes /\
  phonemeCategory (appState (world0 0)) = VStr "idle" /\
  "idle" ∈ mouthTypes /\ "a" ∈ mouthTypes /\ "a" <> "idle" /\
  currentMouthType (animation (onMouthChange (VStr "a") (world0 0))) = "a" /\
  currentMouthType
    (animation (animate 1000 (1 # 2) (onMouthChange (VStr "a") (world0 0))).1)
  = "idle".
Proof.
  assert ("idle" ∈ mouthTypes) as Hi by (unfold mouthTypes; EngineFacts.member).
  assert ("a" ∈ mouthTypes) as Ha by (unfold mouthTypes; EngineFacts.member).
  assert ("a" <> "idle") as Hne by discriminate.
  destruct (manual_mouth_reverted 1000 (1 # 2) (world0 0) "a" "idle"
              eq_refl eq_refl Hi Ha Hne) as (H1 & H2 & _).
  repeat (split; [done |]). exact H2.
Defined.

(** X13: when the awaited classification arrives with at least one event,
    the resolver's emission for the first event becomes
    [appState.phonemeCategory]; for a history of visemes and a label that
    names no inherited member it is one of the eight mouth types, and the
    next render frame makes it the current mouth type, with its sprite
    alone visible if the type changed. *)
Theorem classification_reaches_mouth
    (e : PhonemeEvent) (es : list PhonemeEvent) (r r' : Q) (now : Z) (w : World) :
  isProcessing (processor w) = true ->
  map fst (mouthSprites (animation w)) = mouthTypes ->
  Forall is_viseme (phonemeHistory w) ->
  phonemeChar e ∉ Object_prototype_keys ->
  let w1 := (processAudio_resume (e :: es) r w).1 in
  let w2 := (animate now r' w1).1 in
  phonemeCategory (appState w1)
  = (getPhonemeCategory r (Some e) (phonemeHistory w)).1 /\
  isProcessing (processor w1) = false /\
  exists x,
    phonemeCategory (appState w1) = VStr x /\ x ∈ mouthTypes /\
    currentMouthType (animation w2) = x /\
    (currentMouthType (animation w) <> x -> visibleMouths (animation w2) = [x]).
Proof.
  intros Hp Hkeys Hh He.
  destruct (LipSyncFacts.getPhonemeCategory_visemes r (Some e) (phonemeHistory w) Hh)
    as [(x & Hx & Hin) _].
  { by intros e0 [= <-]. }
  destruct (animate_animation now r' (processAudio_resume (e :: es) r w).1)
    as (Han & _ & _).
  cbv zeta. rewrite Han. clear Han.
  unfold processAudio_resume. rewrite Hp.
  destruct (getPhonemeCategory r (Some e) (phonemeHistory w)) as [c h'].
  simpl in *. subst c. split; [done |]. split; [done |].
  exists x. split; [done |]. split; [done |].
  destruct (updateMouthSprite_to x (animation w) Hkeys Hin) as (Hcur & _ & _ & Hvis).
  destruct (updateEyeSprite_mouth r' (updateMouthSprite (VStr x) (animation w)).1)
    as (-> & _ & ->).
  by split.
Qed.

Lemma classification_reaches_mouth_witness :
  isProcessing (processor (run [MicToggle true true; AudioProcess [] 990;
                                Frame 1000 (1 # 2)] (world0 0)).1) = true /\
  (phonemeChar (mkEvent "O") ∉ Object_prototype_keys) /\
  visibleMouths
    (animation
       (animate 1016 (1 # 2)
          (processAudio_resume [mkEvent "O"] (1 # 2)
             (run [MicToggle true true; AudioProcess [] 990;
                   Frame 1000 (1 # 2)] (world0 0)).1).1).1)
  = ["o"].
Proof.
  assert (phonemeChar (mkEvent "O") ∉ Object_prototype_keys) as He.
  { vm_compute. intros H.
    repeat (apply elem_of_cons in H as [H | H]; [discriminate |]).
    by apply elem_of_nil in H. }
  split; [reflexivity |]. split; [exact He |].
  destruct (classification_reaches_mouth (mkEvent "O") [] (1 # 2) (1 # 2) 1016
              (run [MicToggle true true; AudioProcess [] 990;
                    Frame 1000 (1 # 2)] (world0 0)).1
              eq_refl eq_refl ltac:(constructor) He)
    as (_ & _ & x & Hx & _ & _ & Hvis).
  vm_compute in Hx. injection Hx as <-.
  apply Hvis. vm_compute. discriminate.
Defined.

(** *** Before the first change of mouth *)

Lemma step_quiet (e : event) (w : World) :
  quiet e = true ->
  phonemeCategory (appState w) = VStr (currentMouthType (animation w)) ->
  phonemeCategory (appState (step e w).1) = phonemeCategory (appState w) /\
  currentMouthType (animation (step e w).1) = currentMouthType (animation w) /\
  mouthSprites (animation (step e w).1) = mouthSprites (animation w).
Proof.
  intros He Hcat. destruct e; simpl; try done.
  - destruct (animate_animation now r w) as (-> & -> & _).
    rewrite Hcat, (MouthFacts.updateMouthSprite_same _ _ eq_refl). simpl.
    destruct (updateEyeSprite_mouth r (animation w)) as (-> & -> & _). done.
  - unfold onMicToggle. destruct enabled; [| done].
    by destruct (Audio.startMicrophone granted (audio w)).
Qed.

(** X19: [initAnimation] leaves all eight mouth placeholders visible while
    the current mouth type is ['idle'], and nothing hides them until the
    mouth category first changes: after any events other than a
    classification result or a manual mouth change, the mouth sprites are
    those of start-up, all eight visible. *)
Theorem mouths_all_visible_at_start (es : list event) (r : Q) :
  forallb quiet es = true ->
  mouthSprites (animation (run es (world0 r)).1) = mouthSprites (stage r) /\
  currentMouthType (animation (run es (world0 r)).1) = "idle" /\
  visibleMouths (animation (run es (world0 r)).1) = mouthTypes.
Proof.
  intros Hes.
  assert (forall w,
            forallb quiet es = true ->
            phonemeCategory (appState w) = VStr (currentMouthType (animation w)) ->
            currentMouthType (animation (run es w).1)
            = currentMouthType (animation w) /\
            mouthSprites (animation (run es w).1) = mouthSprites (animation w))
    as Hgen.
  { clear Hes. induction es as [| e es IH]; intros w Hes Hcat; [done |].
    simpl in Hes. apply andb_prop in Hes as [He Hes]. simpl.
    destruct (step_quiet e w He Hcat) as (Hc & Hcur & Hm).
    destruct (step e w) as [w1 o1]. simpl in *.
    destruct (IH w1 Hes) as [IH1 IH2]; [congruence |].
    destruct (run es w1) as [w2 o2]. simpl in *. split; congruence. }
  destruct (Hgen (world0 r) Hes eq_refl) as [Hcur Hm].
  unfold visibleMouths. rewrite Hcur, Hm. done.
Qed.

Lemma mouths_all_visible_at_start_witness :
  forallb quiet [MicToggle true true; AudioProcess [] 990; Frame 1000 (1 # 2);
                 EyeBlink; Frame 1016 (1 # 2)] = true /\
  visibleMouths
    (animation (run [MicToggle true true; AudioProcess [] 990;
                     Frame 1000 (1 # 2); EyeBlink; Frame 1016 (1 # 2)]
                    (world0 0)).1)
  = mouthTypes.
Proof.
  split; [reflexivity |].
  apply (mouths_all_visible_at_start
           [MicToggle true true; AudioProcess [] 990; Frame 1000 (1 # 2);
            EyeBlink; Frame 1016 (1 # 2)] 0 eq_refl).
Defined.

End SessionFacts.
